(** * Concept-graph construction pipeline: a shallow embedding

    The development follows the four scripts of the repository:
    - [Py]            the fragment of Python's [str] and [re] the scripts use;
    - [Concepts]      [scripts/build_concepts_db.py] (class [ConceptDBBuilder]);
    - [Translations]  [scripts/build_translations.py] (the gloss classifier);
    - [Bidirectional] [scripts/build_translations_bidirectional.py]
                      (the second classifier, record mirroring, augmentation).

    Python values are modelled as follows: a [str] is the list of its code
    points, an [int] is a [Z], a [dict] is an association list in insertion
    order (the scripts iterate over their dictionaries, and the order of
    iteration decides which identifier a lemma or a concept receives), a
    [list] is a [list]. *)

From Stdlib Require Import List ZArith NArith Bool Lia String Ascii.
From Stdlib Require Import Sorting.Sorted Permutation.
Import ListNotations.
Local Open Scope Z_scope.

(* ===================================================================== *)
(** ** Python strings                                                     *)
(* ===================================================================== *)

Module Py.

(** A Python [str]: a sequence of Unicode code points. *)
Definition str := list N.

(** An ASCII literal as a [str]. *)
Definition lit (s : string) : str :=
  List.map N_of_ascii (list_ascii_of_string s).

Definition chr (a : ascii) : N := N_of_ascii a.

(** [len(s)] *)
Definition len {A} (l : list A) : Z := Z.of_nat (List.length l).

(** [c in s] for a one-character string [c]. *)
Definition has (c : N) (s : str) : bool := existsb (N.eqb c) s.

(** [s.startswith(p)] *)
Fixpoint startswith (p s : str) : bool :=
  match p, s with
  | [], _ => true
  | _ :: _, [] => false
  | x :: p', y :: s' => N.eqb x y && startswith p' s'
  end.

(** [p in s] for strings: [p] occurs in [s] as a substring. *)
Fixpoint contains (p s : str) : bool :=
  match s with
  | [] => startswith p []
  | _ :: s' => startswith p s || contains p s'
  end.

(** [s.split(c)[0]]: the text before the first occurrence of [c]
    (all of [s] when [c] does not occur). *)
Fixpoint split_first (c : N) (s : str) : str :=
  match s with
  | [] => []
  | x :: s' => if N.eqb x c then [] else x :: split_first c s'
  end.

(** [s.split(c)[-1]]: the text after the last occurrence of [c]
    (all of [s] when [c] does not occur). *)
Fixpoint split_last (c : N) (s : str) : str :=
  match s with
  | [] => []
  | x :: s' => if has c s' then split_last c s'
               else if N.eqb x c then s' else s
  end.

(** [str.isspace] on one code point: the characters [str.strip()] removes. *)
Definition isspace (c : N) : bool :=
  ((9 <=? c) && (c <=? 13) || (28 <=? c) && (c <=? 32)
   || (c =? 133) || (c =? 160) || (c =? 5760)
   || (8192 <=? c) && (c <=? 8202)
   || (c =? 8232) || (c =? 8233) || (c =? 8239) || (c =? 8287)
   || (c =? 12288))%N.

Fixpoint lstrip (s : str) : str :=
  match s with
  | [] => []
  | x :: s' => if isspace x then lstrip s' else s
  end.

(** [rstrip]: drop the trailing white space. *)
Fixpoint rstrip (s : str) : str :=
  match s with
  | [] => []
  | x :: s' =>
      match rstrip s' with
      | [] => if isspace x then [] else [x]
      | r => x :: r
      end
  end.

(** [s.strip()] *)
Definition strip (s : str) : str := rstrip (lstrip s).

(** [str.lower] on one code point.  The table covers Basic Latin and the
    Latin-1 Supplement (U+0000 to U+00FF), the range of the glosses of the
    five supported languages; other code points are left as they are. *)
Definition lower_cp (c : N) : N :=
  (if (65 <=? c) && (c <=? 90) then c + 32
   else if (192 <=? c) && (c <=? 222) && negb (c =? 215) then c + 32
   else c)%N.

(** [s.lower()] *)
Definition lower (s : str) : str := List.map lower_cp s.

(** [any(p in s for p in ps)] *)
Definition any_in (ps : list str) (s : str) : bool :=
  existsb (fun p => contains p s) ps.

Definition str_eq_dec : forall a b : str, {a = b} + {a <> b} :=
  list_eq_dec N.eq_dec.

(** [a < b] on strings: lexicographic on code points. *)
Fixpoint str_ltb (a b : str) : bool :=
  match a, b with
  | _, [] => false
  | [], _ :: _ => true
  | x :: a', y :: b' => (x <? y)%N || (x =? y)%N && str_ltb a' b'
  end.

(** [a <= b] on strings. *)
Definition str_leb (a b : str) : bool := negb (str_ltb b a).

(** *** Dictionaries

    A [dict] keeps its keys in insertion order; assigning to a key that is
    present replaces the value where it stands, assigning to a new key puts
    the entry last. *)
Section Dict.
Context {K V : Type} (eq_dec : forall a b : K, {a = b} + {a <> b}).

(** [d.get(k)] *)
Fixpoint dict_get (k : K) (d : list (K * V)) : option V :=
  match d with
  | [] => None
  | (k', v) :: d' => if eq_dec k k' then Some v else dict_get k d'
  end.

(** [k in d] *)
Definition dict_mem (k : K) (d : list (K * V)) : bool :=
  match dict_get k d with Some _ => true | None => false end.

(** [d[k] = v] *)
Fixpoint dict_set (k : K) (v : V) (d : list (K * V)) : list (K * V) :=
  match d with
  | [] => [(k, v)]
  | (k', v') :: d' =>
      if eq_dec k k' then (k', v) :: d' else (k', v') :: dict_set k v d'
  end.

End Dict.

(** *** [sorted] and [enumerate] *)
Section Sorted.
Context {A : Type} (leb : A -> A -> bool).

Fixpoint insert_sorted (x : A) (l : list A) : list A :=
  match l with
  | [] => [x]
  | y :: l' => if leb x y then x :: l else y :: insert_sorted x l'
  end.

(** [sorted(l, key=...)] with [leb a b] standing for [key(a) <= key(b)]:
    a stable sort, which an insertion sort from the right is (an element is
    put before the first element of the sorted rest whose key is not
    smaller). *)
Fixpoint sorted (l : list A) : list A :=
  match l with
  | [] => []
  | x :: l' => insert_sorted x (sorted l')
  end.

End Sorted.

(** [list(enumerate(l, start))] *)
Fixpoint enumerate {A} (start : Z) (l : list A) : list (Z * A) :=
  match l with
  | [] => []
  | x :: l' => (start, x) :: enumerate (start + 1) l'
  end.

End Py.

(* ===================================================================== *)
(** ** build_concepts_db.py: the lemma canonicalizer                       *)
(* ===================================================================== *)

Module Canon.
Import Py.

Definition jargon_patterns : list str :=
  [ lit "apocopic form of"; lit "feminine form of"; lit "masculine form of";
    lit "plural form of"; lit "diminutive of"; lit "augmentative of";
    lit "alternative form of"; lit "archaic form of" ].

Definition separators : list N :=
  [ chr ","; chr ";"; chr "/" ].

(** [for pattern in jargon_patterns: if pattern in translation.lower(): if
    ',' in translation: translation = parts[-1].strip(); break].  The [break]
    sits inside the comma test: a pattern that occurs in a text without a
    comma lets the loop go on, on the unchanged text. *)
Fixpoint jargon_loop (ps : list str) (translation : str) : str :=
  match ps with
  | [] => translation
  | pattern :: ps' =>
      if contains pattern (lower translation) then
        if has (chr ",") translation
        then strip (split_last (chr ",") translation)
        else jargon_loop ps' translation
      else jargon_loop ps' translation
  end.

(** [for sep in separators: if sep in translation: translation =
    translation.split(sep)[0].strip(); break] *)
Fixpoint sep_loop (seps : list N) (translation : str) : str :=
  match seps with
  | [] => translation
  | sep :: seps' =>
      if has sep translation
      then strip (split_first sep translation)
      else sep_loop seps' translation
  end.

(** [ConceptDBBuilder._extract_english_lemma] *)
Definition _extract_english_lemma (translation : str) : str :=
  let t0 := if startswith (lit "to ") translation
            then skipn 3 translation else translation in
  let t1 := if has (chr "(") t0
            then strip (split_first (chr "(") t0) else t0 in
  let t2 := jargon_loop jargon_patterns t1 in
  let t3 := sep_loop separators t2 in
  strip (lower t3).

End Canon.

(* ===================================================================== *)
(** ** Python regular expressions                                         *)
(* ===================================================================== *)

Module Re.
Import Py.

(** The fragment of the [re] syntax that the pattern tables use.  [re.search]
    is only asked whether a match exists, so the lazy [.+?] and the greedy
    [.+] are the same expression here. *)
Inductive regex : Type :=
| Lit (s : str)          (* a run of literal characters *)
| Dot                    (* [.]: any character but a newline *)
| Word                   (* [\w] *)
| Seq (a b : regex)
| Alt (a b : regex)      (* [a|b] *)
| Star (a : regex)       (* [a*] *)
| Bol                    (* [^] *)
| Eol                    (* [$] *)
| WordB.                 (* [\b] *)

(** [a+] *)
Definition Plus (a : regex) : regex := Seq a (Star a).

(** Concatenation of a list of expressions. *)
Fixpoint cat (rs : list regex) : regex :=
  match rs with
  | [] => Lit []
  | [r] => r
  | r :: rs' => Seq r (cat rs')
  end.

(** [(w|w1|...|wn)] *)
Fixpoint one_of (w : string) (ws : list string) : regex :=
  match ws with
  | [] => Lit (lit w)
  | w' :: ws' => Alt (Lit (lit w)) (one_of w' ws')
  end.

(** [\w] on one code point: [str.isalnum] or an underscore, on the range
    U+0000 to U+00FF. *)
Definition is_word (c : N) : bool :=
  ((48 <=? c) && (c <=? 57) || (65 <=? c) && (c <=? 90)
   || (97 <=? c) && (c <=? 122) || (c =? 95)
   || (c =? 170) || (c =? 178) || (c =? 179) || (c =? 181)
   || (c =? 185) || (c =? 186) || (188 <=? c) && (c <=? 190)
   || (192 <=? c) && (c <=? 214) || (216 <=? c) && (c <=? 246)
   || (248 <=? c) && (c <=? 255))%N.

Definition word_before (prev : option N) : bool :=
  match prev with Some c => is_word c | None => false end.

Definition word_after (s : str) : bool :=
  match s with c :: _ => is_word c | [] => false end.

(** Consume the literal [l] at the head of [s]; [prev] is the character
    before the current position. *)
Fixpoint match_lit (l : str) (prev : option N) (s : str)
  (k : option N -> str -> bool) : bool :=
  match l with
  | [] => k prev s
  | x :: l' =>
      match s with
      | y :: s' => N.eqb x y && match_lit l' (Some y) s' k
      | [] => false
      end
  end.

(** A backtracking matcher in continuation-passing style.  [prev] is the
    character before the current position ([None] at the start of the text),
    [s] the rest of the text, [k] what remains to be matched.  An iteration
    of [Star] must consume a character, so [fuel] at least the length of [s]
    is never used up. *)
Fixpoint matches (fuel : nat) : regex -> option N -> str ->
                                (option N -> str -> bool) -> bool :=
  fix go (r : regex) (prev : option N) (s : str)
         (k : option N -> str -> bool) {struct r} : bool :=
    match r with
    | Lit l => match_lit l prev s k
    | Dot => match s with
             | c :: s' => negb (N.eqb c 10) && k (Some c) s'
             | [] => false
             end
    | Word => match s with
              | c :: s' => is_word c && k (Some c) s'
              | [] => false
              end
    | Seq a b => go a prev s (fun p s' => go b p s' k)
    | Alt a b => go a prev s k || go b prev s k
    | Star a =>
        k prev s ||
        match fuel with
        | O => false
        | S f => go a prev s (fun p s' =>
                   Nat.ltb (List.length s') (List.length s)
                   && matches f (Star a) p s' k)
        end
    | Bol => match prev with None => k prev s | Some _ => false end
    | Eol => match s with
             | [] => k prev s
             | [c] => N.eqb c 10 && k prev s
             | _ => false
             end
    | WordB => xorb (word_before prev) (word_after s) && k prev s
    end.

Fixpoint search_from (r : regex) (prev : option N) (s : str) : bool :=
  matches (S (List.length s)) r prev s (fun _ _ => true)
  || match s with
     | [] => false
     | c :: s' => search_from r (Some c) s'
     end.

(** [re.search(r, s) is not None] *)
Definition search (r : regex) (s : str) : bool := search_from r None s.

(** [any(re.search(p, s) for p in ps)], as the [for ... return True] loops. *)
Definition any_search (ps : list regex) (s : str) : bool :=
  existsb (fun p => search p s) ps.

End Re.

(* ===================================================================== *)
(** ** build_translations.py: the gloss classifier                        *)
(* ===================================================================== *)

Module Translations.
Import Py Re.

Definition inflection_keywords : list str :=
  List.map lit
  [ "inflection of"; "plural of"; "singular of"; "masculine of";
    "feminine of"; "past participle of"; "gerund of";
    "present participle of"; "imperative of"; "combined with";
    "alternative spelling of"; "alternative form of";
    "obsolete spelling of"; "archaic form of"; "female equivalent";
    "male equivalent"; "voseo" ]%string.

Definition specific_form_patterns : list regex :=
  [ (* \b(superlative|comparative|diminutive|augmentative) form of\b *)
    cat [WordB;
         one_of "superlative" ["comparative"; "diminutive"; "augmentative"];
         Lit (lit " form of"); WordB];
    (* \b(short|long|contracted|elided) form of\b *)
    cat [WordB; one_of "short" ["long"; "contracted"; "elided"];
         Lit (lit " form of"); WordB] ]%string.

Definition inflection_patterns : list regex :=
  [ (* \b\w+-person .+? (singular|plural) .+? of \w+$ *)
    cat [WordB; Plus Word; Lit (lit "-person "); Plus Dot; Lit (lit " ");
         one_of "singular" ["plural"]; Lit (lit " "); Plus Dot;
         Lit (lit " of "); Plus Word; Eol];
    (* \b\w+-person .+? of \w+$ *)
    cat [WordB; Plus Word; Lit (lit "-person "); Plus Dot;
         Lit (lit " of "); Plus Word; Eol];
    Lit (lit "subjunctive of");
    Lit (lit "indicative of");
    Lit (lit "conditional of");
    Lit (lit "preterite of");
    Lit (lit "imperfect of");
    (* future .+? of \w+ *)
    cat [Lit (lit "future "); Plus Dot; Lit (lit " of "); Plus Word] ]%string.

Definition is_inflected_form_definition (gloss : str) : bool :=
  let gloss_lower := lower gloss in
  if any_in inflection_keywords gloss_lower then true
  else if any_search specific_form_patterns gloss_lower then true
  else if any_search inflection_patterns gloss_lower then true
  else false.

Definition bad_categories : list str :=
  List.map lit
  [ "letter names"; "psychoanalysis"; "cities"; "provinces"; "countries";
    "place names"; "toponyms" ]%string.

Definition technical_patterns : list str :=
  List.map lit
  [ "letter of the"; "name of the letter"; "the name of the"; "called ye";
    "called i griega"; "called ef"; "alphabet";
    "written in the latin script"; "written in the"; "freud"; "jung";
    "psychoanalysis"; "concept of the"; "greek letter"; "latin letter";
    "latin-script letter"; "initialism"; "abbreviation"; "misspelling";
    "diminutive of"; "augmentative of"; "a city"; "a suburb"; "a town";
    "a village"; "a census-designated place"; "a comune"; "a province";
    "capital of"; "a state of"; "a number of places"; "county,";
    "a country"; "a region" ]%string.

(** The loop over [category_names]; an entry that is not a [str] ([None]
    here) is skipped by the [isinstance] test. *)
Definition bad_category (cat_name : option str) : bool :=
  match cat_name with
  | None => false
  | Some c => any_in bad_categories (lower c)
  end.

(** [category_names] defaults to [None]; [if category_names:] is false for
    [None] and for the empty list. *)
Definition is_technical_definition (gloss : str)
  (category_names : option (list (option str))) : bool :=
  let by_category :=
    match category_names with
    | None => false
    | Some cs => existsb bad_category cs
    end in
  if by_category then true
  else any_in technical_patterns (lower gloss).

End Translations.

(* ===================================================================== *)
(** ** build_translations_bidirectional.py                                *)
(* ===================================================================== *)

Module Bidirectional.
Import Py Re.

Definition inflection_keywords : list str :=
  List.map lit
  [ "inflection of"; "plural of"; "singular of"; "masculine of";
    "feminine of"; "neuter of"; "genitive of"; "dative of";
    "nominative of"; "accusative of"; "past participle of"; "gerund of";
    "present participle of"; "imperative of"; "combined with";
    "alternative spelling of"; "alternative form of";
    "obsolete spelling of"; "archaic form of"; "female equivalent";
    "male equivalent"; "voseo" ]%string.

Definition specific_form_patterns : list regex :=
  Translations.specific_form_patterns.

Definition inflection_patterns : list regex :=
  Translations.inflection_patterns.

Definition cases : regex :=
  one_of "nominative" ["genitive"; "dative"; "accusative"]%string.
Definition number : regex := one_of "singular" ["plural"]%string.
Definition degree : regex := one_of "comparative" ["superlative"]%string.
Definition person : regex := one_of "first" ["second"; "third"]%string.
Definition declension : regex := one_of "weak" ["strong"; "mixed"]%string.

Definition german_inflection_patterns : list regex :=
  [ (* ^(weak|strong|mixed)(/\w+)* (nominative|genitive|dative|accusative) *)
    cat [Bol; declension; Star (Seq (Lit (lit "/")) (Plus Word));
         Lit (lit " "); cases];
    (* ^(nominative|genitive|dative|accusative) (singular|plural) *)
    cat [Bol; cases; Lit (lit " "); number];
    (* \b(singular|plural) (nominative|genitive|dative|accusative)\b *)
    cat [WordB; number; Lit (lit " "); cases; WordB];
    (* (nominative|...|accusative)/(nominative|...|accusative) *)
    cat [cases; Lit (lit "/"); cases];
    (* ^(comparative|superlative) degree *)
    cat [Bol; degree; Lit (lit " degree")];
    (* \b(comparative|superlative) degree of\b *)
    cat [WordB; degree; Lit (lit " degree of"); WordB];
    (* ^(first|second|third)-person (singular|plural) *)
    cat [Bol; person; Lit (lit "-person "); number];
    (* \b(first|second|third)-person .+?
       (present|past|future|subjunctive|imperative|preterite)$ *)
    cat [WordB; person; Lit (lit "-person "); Plus Dot; Lit (lit " ");
         one_of "present" ["past"; "future"; "subjunctive"; "imperative";
                           "preterite"];
         Eol];
    (* (first|second|third)/(first|second|third)-person *)
    cat [person; Lit (lit "/"); person; Lit (lit "-person")];
    (* \ball-case (singular|plural)\b *)
    cat [WordB; Lit (lit "all-case "); number; WordB];
    (* \ball-gender (singular|plural)\b *)
    cat [WordB; Lit (lit "all-gender "); number; WordB];
    (* ^(singular|plural) imperative$ *)
    cat [Bol; number; Lit (lit " imperative"); Eol];
    (* ^(weak|strong|mixed) .+? (singular|plural) (comparative|superlative) *)
    cat [Bol; declension; Lit (lit " "); Plus Dot; Lit (lit " "); number;
         Lit (lit " "); degree];
    (* \b(comparative|superlative|positive) degree of \w+$ *)
    cat [WordB; one_of "comparative" ["superlative"; "positive"];
         Lit (lit " degree of "); Plus Word; Eol];
    (* \bdependent (subjunctive|preterite|imperative)\b *)
    cat [WordB; Lit (lit "dependent ");
         one_of "subjunctive" ["preterite"; "imperative"]; WordB] ]%string.

Definition is_inflected_form_definition (gloss : str) : bool :=
  let gloss_lower := lower gloss in
  if any_in inflection_keywords gloss_lower then true
  else if any_search specific_form_patterns gloss_lower then true
  else if any_search inflection_patterns gloss_lower then true
  else if any_search german_inflection_patterns gloss_lower then true
  else false.

(** The category and pattern tables are the ones of build_translations.py. *)
Definition is_technical_definition (gloss : str)
  (category_names : option (list (option str))) : bool :=
  Translations.is_technical_definition gloss category_names.

(** A translation record [(lemma_from, lang_from, translation, lang_to)]. *)
Definition record : Type := str * str * str * str.

(** The body of the loop of [reverse_translations]. *)
Definition mirror (r : record) : record :=
  let '(lemma_from, lang_from, translation, lang_to) := r in
  (translation, lang_to, lemma_from, lang_from).

Definition reverse_translations (translations : list record) : list record :=
  List.map mirror translations.

Definition SPARSE_THRESHOLD : Z := 10000.
Definition RICH_THRESHOLD : Z := 100000.

(** Step [4.5/5] of [main]: the two lists after the augmentation test.
    [translations1.extend(reversed)] changes the first list only. *)
Definition augment (translations1 translations2 : list record)
  : list record * list record :=
  let original_count1 := len translations1 in
  let original_count2 := len translations2 in
  if (original_count1 <? SPARSE_THRESHOLD)
     && (original_count2 >? RICH_THRESHOLD)
  then (translations1 ++ reverse_translations translations2, translations2)
  else if (original_count2 <? SPARSE_THRESHOLD)
          && (original_count1 >? RICH_THRESHOLD)
  then (translations1, translations2 ++ reverse_translations translations1)
  else (translations1, translations2).

End Bidirectional.

(* ===================================================================== *)
(** ** SQLite tables                                                      *)
(* ===================================================================== *)

Module Sqlite.

(** What a statement can raise: a constraint violation, or a failure of the
    storage underneath (disk full, I/O error). *)
Inductive error : Type := IntegrityError | OperationalError.

Inductive result (A : Type) : Type :=
| Ok (a : A)
| Raised (e : error).
Arguments Ok {A} a.
Arguments Raised {A} e.

Section Table.
Context {Row : Type}.
(** [conflict r r'] : the rows [r] and [r'] agree on the primary key or on
    the columns of a UNIQUE constraint. *)
Variable conflict : Row -> Row -> bool.

Definition violates (r : Row) (t : list Row) : bool :=
  existsb (conflict r) t.

(** [INSERT INTO t VALUES r] *)
Definition insert (r : Row) (t : list Row) : result (list Row) :=
  if violates r t then Raised IntegrityError else Ok (t ++ [r]).

(** [INSERT OR IGNORE INTO t VALUES r] *)
Definition insert_or_ignore (r : Row) (t : list Row) : list Row :=
  if violates r t then t else t ++ [r].

(** [cursor.executemany("INSERT ...", rows)] *)
Fixpoint executemany_insert (rows : list Row) (t : list Row)
  : result (list Row) :=
  match rows with
  | [] => Ok t
  | r :: rows' =>
      match insert r t with
      | Ok t' => executemany_insert rows' t'
      | Raised e => Raised e
      end
  end.

(** [cursor.executemany("INSERT OR IGNORE ...", rows)] *)
Definition executemany_or_ignore (rows : list Row) (t : list Row)
  : list Row :=
  fold_left (fun t r => insert_or_ignore r t) rows t.

End Table.

End Sqlite.

(* ===================================================================== *)
(** ** build_concepts_db.py: the builder                                  *)
(* ===================================================================== *)

Module Concepts.
Import Py Canon Sqlite.

Definition LANGUAGES : list str :=
  List.map lit ["en"; "es"; "fr"; "de"; "it"]%string.

Definition en : str := lit "en".
Definition UNKNOWN : str := lit "UNKNOWN".

(** [(lang, lemma, pos)] *)
Definition lemma_key : Type := str * str * str.

Definition pair_eq_dec : forall a b : str * str, {a = b} + {a <> b}.
Proof. decide equality; apply str_eq_dec. Defined.

Definition key_eq_dec : forall a b : lemma_key, {a = b} + {a <> b}.
Proof. decide equality; [apply str_eq_dec | apply pair_eq_dec]. Defined.

(** The fields of [ConceptDBBuilder]. *)
Record builder : Type := mkBuilder {
  forms : list (str * str * str * str);       (* (lang, form, lemma, pos) *)
  lemmas : list (lemma_key * Z);               (* (lang, lemma, pos) -> id *)
  concepts : list ((str * str) * Z);           (* (english_lemma, pos) -> id *)
  senses : list (Z * Z * Z);                   (* (lemma_id, concept_id, rank) *)
  next_lemma_id : Z;
  next_concept_id : Z
}.

(** [__init__] *)
Definition init : builder :=
  {| forms := []; lemmas := []; concepts := []; senses := [];
     next_lemma_id := 1; next_concept_id := 1 |}.

(** [if key not in self.lemmas: self.lemmas[key] = self.next_lemma_id;
    self.next_lemma_id += 1] *)
Definition add_lemma (key : lemma_key) (b : builder) : builder :=
  if dict_mem key_eq_dec key (lemmas b) then b
  else {| forms := forms b;
          lemmas := dict_set key_eq_dec key (next_lemma_id b) (lemmas b);
          concepts := concepts b; senses := senses b;
          next_lemma_id := next_lemma_id b + 1;
          next_concept_id := next_concept_id b |}.

(** [self.lemmas[key]], for a key that is present. *)
Definition lemma_id (key : lemma_key) (b : builder) : Z :=
  match dict_get key_eq_dec key (lemmas b) with
  | Some i => i
  | None => 0
  end.

(** A row [(word, lemma, pos)] of a langpack; [pos] may be NULL. *)
Definition langpack_row : Type := str * str * option str.

(** [pos or 'UNKNOWN']: [None] and the empty string are both false. *)
Definition pos_or_unknown (pos : option str) : str :=
  match pos with
  | None => UNKNOWN
  | Some [] => UNKNOWN
  | Some p => p
  end.

(** The body of [for word, lemma, pos in rows]. *)
Definition add_form (lang : str) (b : builder) (row : langpack_row)
  : builder :=
  let '(word, lemma, pos) := row in
  let pos := pos_or_unknown pos in
  let b1 := {| forms := forms b ++ [(lang, word, lemma, pos)];
               lemmas := lemmas b; concepts := concepts b;
               senses := senses b; next_lemma_id := next_lemma_id b;
               next_concept_id := next_concept_id b |} in
  add_lemma (lang, lemma, pos) b1.

(** [extract_forms_and_lemmas]; [langpack lang] is the content of the
    table [lemmas] of [langpacks/<lang>/lemmas.db], or [None] when the file
    does not exist. *)
Definition extract_forms_and_lemmas
  (langpack : str -> option (list langpack_row)) (b : builder) : builder :=
  fold_left (fun b lang =>
               match langpack lang with
               | None => b
               | Some rows => fold_left (add_form lang) rows b
               end)
            LANGUAGES b.

(** The POS lookup cache: the first part of speech of each [(lang, lemma)]. *)
Definition build_pos_cache (lemmas : list (lemma_key * Z))
  : list ((str * str) * str) :=
  fold_left (fun pos_cache entry =>
               let '((lang, lemma, pos), _) := entry in
               let cache_key := (lang, lemma) in
               if dict_mem pair_eq_dec cache_key pos_cache then pos_cache
               else dict_set pair_eq_dec cache_key pos pos_cache)
            lemmas [].

(** [english_hub]: [(english_lemma, pos) -> {(lang, lemma, pos): length}]. *)
Definition hub : Type := list ((str * str) * list (lemma_key * Z)).

(** The rows of a translation database kept for clustering. *)
Definition en_translations (rows : list (str * str * str * str))
  : list (str * str * str) :=
  flat_map (fun row =>
              let '(l_from, lang_from, trans, lang_to) := row in
              if str_eq_dec lang_to en then
                if str_eq_dec lang_from en then []
                else [(l_from, lang_from, trans)]
              else [])
           rows.

(** The body of [for lemma_from, lang_from, translation in batch].
    [english_hub] is a [defaultdict(dict)]: reading a missing bucket creates
    it, and the key tested is then entered in it at once. *)
Definition hub_add (pos_cache : list ((str * str) * str)) (english_hub : hub)
  (t : str * str * str) : hub :=
  let '(lemma_from, lang_from, translation) := t in
  let english_lemma := _extract_english_lemma translation in
  let cache_key := (lang_from, lemma_from) in
  let source_pos :=
    match dict_get pair_eq_dec cache_key pos_cache with
    | Some p => p
    | None => UNKNOWN
    end in
  let hub_key := (english_lemma, source_pos) in
  let source_key := (lang_from, lemma_from, source_pos) in
  let bucket :=
    match dict_get pair_eq_dec hub_key english_hub with
    | Some d => d
    | None => []
    end in
  if dict_mem key_eq_dec source_key bucket then english_hub
  else dict_set pair_eq_dec hub_key
         (dict_set key_eq_dec source_key (len lemma_from) bucket)
         english_hub.

(** The loop over the translation databases.  A database is [None] when it
    has no table [translations]; the batches of 10000 cut [en_translations]
    into consecutive slices and visit them in order. *)
Definition build_hub (pos_cache : list ((str * str) * str))
  (translation_dbs : list (option (list (str * str * str * str)))) : hub :=
  fold_left (fun english_hub db =>
               match db with
               | None => english_hub
               | Some rows =>
                   fold_left (hub_add pos_cache) (en_translations rows)
                             english_hub
               end)
            translation_dbs [].

(** [key=lambda x: (x[1], x[0][1])]: compare by length, then by lemma. *)
Definition rank_leb (x y : lemma_key * Z) : bool :=
  let '((_, lemma_x, _), length_x) := x in
  let '((_, lemma_y, _), length_y) := y in
  (length_x <? length_y) || (length_x =? length_y) && str_leb lemma_x lemma_y.

(** [translations_by_lang[lang].append(...)] on a [defaultdict(list)]. *)
Definition by_lang_append (d : list (str * list (str * str * str * Z)))
  (x : lemma_key * Z) : list (str * list (str * str * str * Z)) :=
  let '((lang, lemma, lemma_pos), length) := x in
  let group :=
    match dict_get str_eq_dec lang d with
    | Some g => g
    | None => []
    end in
  dict_set str_eq_dec lang (group ++ [(lang, lemma, lemma_pos, length)]) d.

Definition translations_by_lang (sorted_translations : list (lemma_key * Z))
  : list (str * list (str * str * str * Z)) :=
  fold_left by_lang_append sorted_translations [].

(** [self.senses.append(...)] *)
Definition append_sense (s : Z * Z * Z) (b : builder) : builder :=
  {| forms := forms b; lemmas := lemmas b; concepts := concepts b;
     senses := senses b ++ [s]; next_lemma_id := next_lemma_id b;
     next_concept_id := next_concept_id b |}.

(** The body of [for rank_idx, (lang, lemma, lemma_pos, length) in
    enumerate(lang_translations[:3], 1)]. *)
Definition add_sense (concept_id : Z) (b : builder)
  (x : Z * (str * str * str * Z)) : builder :=
  let '(rank_idx, (lang, lemma, lemma_pos, _)) := x in
  let lemma_key := (lang, lemma, lemma_pos) in
  let b1 := add_lemma lemma_key b in
  append_sense (lemma_id lemma_key b1, concept_id, rank_idx) b1.

(** The body of [for lang, lang_translations in translations_by_lang.items()]. *)
Definition add_lang_senses (concept_id : Z) (b : builder)
  (g : str * list (str * str * str * Z)) : builder :=
  let '(_, lang_translations) := g in
  fold_left (add_sense concept_id) (enumerate 1 (firstn 3 lang_translations)) b.

(** The body of [for (english_lemma, pos), translations in
    english_hub.items()]. *)
Definition add_concept (b : builder)
  (bucket : (str * str) * list (lemma_key * Z)) : builder :=
  let '((english_lemma, pos), translations) := bucket in
  let concept_id := next_concept_id b in
  let b1 := {| forms := forms b; lemmas := lemmas b;
               concepts := dict_set pair_eq_dec (english_lemma, pos)
                                    concept_id (concepts b);
               senses := senses b; next_lemma_id := next_lemma_id b;
               next_concept_id := next_concept_id b + 1 |} in
  let sorted_translations := sorted rank_leb translations in
  let b2 := fold_left (add_lang_senses concept_id)
                      (translations_by_lang sorted_translations) b1 in
  let en_key := (en, english_lemma, pos) in
  let b3 := add_lemma en_key b2 in
  append_sense (lemma_id en_key b3, concept_id, 1) b3.

(** [build_concepts_from_translations] *)
Definition build_concepts_from_translations
  (translation_dbs : list (option (list (str * str * str * str))))
  (b : builder) : builder :=
  let pos_cache := build_pos_cache (lemmas b) in
  let english_hub := build_hub pos_cache translation_dbs in
  fold_left add_concept english_hub b.

(** The in-memory part of [main]: a new builder, the langpacks, the
    translation databases. *)
Definition build (langpack : str -> option (list langpack_row))
  (translation_dbs : list (option (list (str * str * str * str))))
  : builder :=
  build_concepts_from_translations translation_dbs
    (extract_forms_and_lemmas langpack init).

(** *** [create_concepts_db] *)

Definition lemma_row : Type := Z * str * str * str * option Z.
Definition form_row : Type := str * str * Z * option str.
Definition concept_row : Type := Z * str * str.
Definition sense_row : Type := Z * Z * Z.

(** The store: the tables of concepts.db that the builder fills.  The table
    [user_overrides] is created and never written. *)
Record db : Type := mkDb {
  t_lemmas : list lemma_row;
  t_forms : list form_row;
  t_concepts : list concept_row;
  t_senses : list sense_row
}.

(** The state of the file right after [executescript]: the schema, no row. *)
Definition empty_db : db :=
  {| t_lemmas := []; t_forms := []; t_concepts := []; t_senses := [] |}.

(** [id INTEGER PRIMARY KEY, ..., UNIQUE(lang, lemma, pos)] *)
Definition lemma_conflict (r r' : lemma_row) : bool :=
  let '(id, lang, lemma, pos, _) := r in
  let '(id', lang', lemma', pos', _) := r' in
  (id =? id')
  || (if key_eq_dec (lang, lemma, pos) (lang', lemma', pos')
      then true else false).

(** [PRIMARY KEY (lang, form, lemma_id)] *)
Definition form_conflict (r r' : form_row) : bool :=
  let '(lang, form, lemma_id, _) := r in
  let '(lang', form', lemma_id', _) := r' in
  (if pair_eq_dec (lang, form) (lang', form') then true else false)
  && (lemma_id =? lemma_id').

(** [id INTEGER PRIMARY KEY] *)
Definition concept_conflict (r r' : concept_row) : bool :=
  let '(id, _, _) := r in
  let '(id', _, _) := r' in
  id =? id'.

(** [PRIMARY KEY (lemma_id, concept_id)] *)
Definition sense_conflict (r r' : sense_row) : bool :=
  let '(lemma_id, concept_id, _) := r in
  let '(lemma_id', concept_id', _) := r' in
  (lemma_id =? lemma_id') && (concept_id =? concept_id').

Definition lemma_rows (b : builder) : list lemma_row :=
  List.map (fun e : lemma_key * Z =>
              let '((lang, lemma, pos), lemma_id) := e in
              (lemma_id, lang, lemma, pos, None))
           (lemmas b).

Definition form_rows (b : builder) : list form_row :=
  flat_map (fun f : str * str * str * str =>
              let '(lang, form, lemma, pos) := f in
              match dict_get key_eq_dec (lang, lemma, pos) (lemmas b) with
              | Some lemma_id => [(lang, form, lemma_id, None)]
              | None => []
              end)
           (forms b).

Definition concept_rows (b : builder) : list concept_row :=
  List.map (fun e : (str * str) * Z =>
              let '((gloss, pos), concept_id) := e in
              (concept_id, pos, gloss))
           (concepts b).

(** The statements between [BEGIN TRANSACTION] and [COMMIT]. *)
Inductive stage : Type :=
| InsertLemmas | InsertForms | InsertConcepts | InsertSenses | Commit.

(** A statement of stage [s] raises when the storage fails there. *)
Definition guard (fault : stage -> bool) (s : stage) : result unit :=
  if fault s then Raised OperationalError else Ok tt.

Definition bind {A B} (m : result A) (f : A -> result B) : result B :=
  match m with
  | Ok a => f a
  | Raised e => Raised e
  end.

Notation "x <- m ;; f" := (bind m (fun x => f))
  (at level 61, m at next level, right associativity).

(** The transaction of [create_concepts_db], on the tables of the new file:
    the four bulk loads (their batches of 10000 are consecutive slices,
    loaded in order) and [COMMIT]. *)
Definition transaction (b : builder) (fault : stage -> bool) : result db :=
  _ <- guard fault InsertLemmas ;;
  tl <- executemany_insert lemma_conflict (lemma_rows b) (t_lemmas empty_db) ;;
  _ <- guard fault InsertForms ;;
  let tf := executemany_or_ignore form_conflict (form_rows b)
                                  (t_forms empty_db) in
  _ <- guard fault InsertConcepts ;;
  tc <- executemany_insert concept_conflict (concept_rows b)
                           (t_concepts empty_db) ;;
  _ <- guard fault InsertSenses ;;
  let ts := executemany_or_ignore sense_conflict (senses b)
                                  (t_senses empty_db) in
  _ <- guard fault Commit ;;
  Ok {| t_lemmas := tl; t_forms := tf; t_concepts := tc; t_senses := ts |}.

(** [if output_path.exists(): output_path.unlink()] *)
Definition unlink (output_path : option db) : option db :=
  match output_path with
  | Some _ => None
  | None => None
  end.

(** [sqlite3.connect] and [executescript] on a path that holds no file:
    the file is created and the schema committed. *)
Definition create_schema (output_path : option db) : option db :=
  match output_path with
  | Some d => Some d
  | None => Some empty_db
  end.

(** [create_concepts_db]: what the output location holds when the method
    returns or raises, from what it held before.  Nothing catches an
    exception: the rows of a transaction that did not reach the end of
    [COMMIT] are not in the file. *)
Definition create_concepts_db (b : builder) (fault : stage -> bool)
  (output_path : option db) : option db * result unit :=
  let removed := unlink output_path in
  let created := create_schema removed in
  match transaction b fault with
  | Ok d => (Some d, Ok tt)
  | Raised e => (created, Raised e)
  end.

End Concepts.


(* ===================================================================== *)
(** ** Reading the concept graph                                          *)
(* ===================================================================== *)

Module Graph.
Import Py Concepts.

(** The key of the lemma that carries the identifier [lemma_id]. *)
Fixpoint key_of_id (lemma_id : Z) (d : list (lemma_key * Z))
  : option lemma_key :=
  match d with
  | [] => None
  | (k, i) :: d' => if i =? lemma_id then Some k else key_of_id lemma_id d'
  end.

Definition key_lang (k : lemma_key) : str := let '(lang, _, _) := k in lang.
Definition key_lemma (k : lemma_key) : str := let '(_, lemma, _) := k in lemma.

Definition sense_concept (s : Z * Z * Z) : Z := let '(_, c, _) := s in c.
Definition sense_rank (s : Z * Z * Z) : Z := let '(_, _, r) := s in r.
Definition sense_lemma_id (s : Z * Z * Z) : Z := let '(i, _, _) := s in i.

(** The sense [s] links its concept to a lemma of language [lang]. *)
Definition sense_in_lang (b : builder) (lang : str) (s : Z * Z * Z) : bool :=
  match key_of_id (sense_lemma_id s) (lemmas b) with
  | Some k => if str_eq_dec (key_lang k) lang then true else false
  | None => false
  end.


(** The senses of a concept, as they stand in [self.senses]. *)
Definition concept_senses (b : builder) (concept_id : Z) : list (Z * Z * Z) :=
  filter (fun s => sense_concept s =? concept_id) (senses b).

(** The senses that link a concept to the lemmas of one language. *)
Definition lang_senses (b : builder) (concept_id : Z) (lang : str)
  : list (Z * Z * Z) :=
  filter (sense_in_lang b lang) (concept_senses b concept_id).




End Graph.

(* ===================================================================== *)
(** ** The senses of one bucket                                           *)
(* ===================================================================== *)

Module Plan.
Import Py Concepts Graph.

(** An entry of [enumerate(lang_translations[:3], 1)]: the rank and the
    tuple [(lang, lemma, lemma_pos, length)]. *)
Definition entry : Type := Z * (str * str * str * Z).

Definition entry_key (x : entry) : lemma_key :=
  let '(_, (lang, lemma, lemma_pos, _)) := x in (lang, lemma, lemma_pos).

Definition tuple_lang (e : str * str * str * Z) : str :=
  let '(lang, _, _, _) := e in lang.

(** [(lang, lemma, lemma_pos, length)] from an item of the bucket. *)
Definition flatten (x : lemma_key * Z) : str * str * str * Z :=
  let '((lang, lemma, lemma_pos), length) := x in
  (lang, lemma, lemma_pos, length).

Definition in_lang (lang : str) (x : lemma_key * Z) : bool :=
  if str_eq_dec (key_lang (fst x)) lang then true else false.

Definition entry_in_lang (lang : str) (x : entry) : bool :=
  if str_eq_dec (key_lang (entry_key x)) lang then true else false.

(** The entries the inner loop of [add_lang_senses] goes through. *)
Definition lang_plan (g : str * list (str * str * str * Z)) : list entry :=
  enumerate 1 (firstn 3 (snd g)).

(** The entries of all the languages of a bucket, in the order of the loops. *)
Definition bucket_plan (translations : list (lemma_key * Z)) : list entry :=
  flat_map lang_plan (translations_by_lang (sorted rank_leb translations)).

(** The same, followed by the entry of the English lemma of the bucket. *)
Definition full_plan (bucket : (str * str) * list (lemma_key * Z))
  : list entry :=
  let '((english_lemma, pos), translations) := bucket in
  bucket_plan translations ++ [(1, (en, english_lemma, pos, 0))].

(** The sense [s] is the one made for the entry [x] of concept [concept_id],
    read in the lemma table [d]. *)
Definition realises (d : list (lemma_key * Z)) (concept_id : Z)
  (x : entry) (s : Z * Z * Z) : Prop :=
  sense_concept s = concept_id
  /\ sense_rank s = fst x
  /\ key_of_id (sense_lemma_id s) d = Some (entry_key x).

(** Lemma identifiers are pairwise distinct and below the next free one. *)
Definition wf (b : builder) : Prop :=
  NoDup (List.map snd (lemmas b))
  /\ forall k i, In (k, i) (lemmas b) -> i < next_lemma_id b.

(** [b'] has the lemmas of [b], followed by new ones. *)
Definition extends (b b' : builder) : Prop :=
  exists l, lemmas b' = lemmas b ++ l.

(** The items of a bucket come from another language than English and carry
    the length of their lemma. *)
Definition bucket_ok (translations : list (lemma_key * Z)) : Prop :=
  forall k n, In (k, n) translations ->
              key_lang k <> en /\ n = len (key_lemma k).

Definition hub_ok (h : hub) : Prop :=
  forall hub_key translations, In (hub_key, translations) h ->
                               bucket_ok translations.

(** The builder once [add_concept] has taken a concept identifier and
    entered the bucket in [self.concepts]. *)
Definition with_concept (hub_key : str * str) (b : builder) : builder :=
  {| forms := forms b; lemmas := lemmas b;
     concepts := dict_set pair_eq_dec hub_key (next_concept_id b)
                          (concepts b);
     senses := senses b; next_lemma_id := next_lemma_id b;
     next_concept_id := next_concept_id b + 1 |}.

(** A group of [translations_by_lang] after more items were appended. *)
Definition merge {A} (o : option (list A)) (l : list A) : option (list A) :=
  match o, l with
  | Some g, _ => Some (g ++ l)
  | None, [] => None
  | None, _ :: _ => Some l
  end.

End Plan.

(* ===================================================================== *)
(** ** Sample inputs                                                      *)
(* ===================================================================== *)

Module Samples.
Import Py Concepts.

(** The glosses of the docstring of [_extract_english_lemma]. *)
Definition gloss_be : str := lit "to be (copula)".
Definition gloss_hello : str := lit "hello, hi, hey".
Definition gloss_my : str :=
  lit "apocopic form of m" ++ [237%N] ++ lit "o, my".
Definition gloss_greetings : str :=
  lit "greetings; hello (general salutation)".

(** The glosses of the docstrings of the classifiers. *)
Definition gloss_conjugation : str :=
  lit "third-person plural future indicative of mu" ++ [241%N] ++ lit "ir".
Definition gloss_city : str := lit "a city in Lombardy".
Definition gloss_pronoun : str := lit "first-person singular pronoun; I".

(** A record and lists of a given length made of it. *)
Definition perro_dog : Bidirectional.record :=
  (lit "perro", lit "es", lit "dog", lit "en").
Definition records (n : N) : list Bidirectional.record :=
  repeat perro_dog (N.to_nat n).

(** A small Spanish langpack and one translation database. *)
Definition langpack_es (lang : str) : option (list langpack_row) :=
  if str_eq_dec lang (lit "es")
  then Some [ (lit "perros", lit "perro", Some (lit "NOUN"));
              (lit "can", lit "can", None) ]
  else None.

Definition es_en_db : list (option (list (str * str * str * str))) :=
  [ Some [ (lit "perro", lit "es", lit "dog (animal)", lit "en");
           (lit "can", lit "es", lit "dog, hound", lit "en");
           (lit "dog", lit "en", lit "perro", lit "es");
           (lit "chien", lit "fr", lit "dog", lit "en") ] ].

Definition sample_builder : builder := build langpack_es es_en_db.

(** A store left by an earlier build. *)
Definition old_store : db :=
  {| t_lemmas := [(1, lit "es", lit "gato", lit "NOUN", None)];
     t_forms := [(lit "es", lit "gatos", 1, None)];
     t_concepts := []; t_senses := [] |}.

Definition no_fault (s : stage) : bool := false.
Definition fault_at_senses (s : stage) : bool :=
  match s with InsertSenses => true | _ => false end.

End Samples.

(* ===================================================================== *)
(** ** Identifiers, caches and filters, as the builder leaves them        *)
(* ===================================================================== *)

Module Numbering.
Import Py Concepts.

(** [start, start + 1, ...], one identifier per key. *)
Fixpoint number {K : Type} (start : Z) (keys : list K) : list (K * Z) :=
  match keys with
  | [] => []
  | k :: keys' => (k, start) :: number (start + 1) keys'
  end.

(** The lemma table is numbered 1, 2, ... without a repeated key. *)
Definition numbered (d : list (lemma_key * Z)) (next : Z) : Prop :=
  d = number 1 (List.map fst d)
  /\ next = 1 + len d
  /\ NoDup (List.map fst d).

(** The part of speech of the first lemma of [lemmas] with the language
    [lang] and the base form [lemma]. *)
Fixpoint first_pos (lang lemma : str) (lemmas : list (lemma_key * Z))
  : option str :=
  match lemmas with
  | [] => None
  | ((l, m, p), _) :: rest =>
      if pair_eq_dec (lang, lemma) (l, m) then Some p
      else first_pos lang lemma rest
  end.

(** The test of the loop that fills [en_translations]. *)
Definition to_english (row : str * str * str * str) : bool :=
  let '(_, lang_from, _, lang_to) := row in
  (if str_eq_dec lang_to en then true else false)
  && (if str_eq_dec lang_from en then false else true).

(** A translation database without the rows that the clustering skips. *)
Definition only_to_english (db : option (list (str * str * str * str)))
  : option (list (str * str * str * str)) :=
  match db with
  | None => None
  | Some rows => Some (filter to_english rows)
  end.

(** The hub of a build: the buckets made from the translation databases
    with the POS cache of the langpacks. *)
Definition hub_of (langpack : str -> option (list langpack_row))
  (translation_dbs : list (option (list (str * str * str * str)))) : hub :=
  build_hub (build_pos_cache
               (lemmas (extract_forms_and_lemmas langpack init)))
            translation_dbs.

(** The row of the table [forms] made for a form. *)
Definition form_row_of (b : builder) (f : str * str * str * str) : form_row :=
  let '(lang, form, lemma, pos) := f in
  (lang, form, lemma_id (lang, lemma, pos) b, None).

(** The store that a build without a failure commits. *)
Definition committed (b : builder) : db :=
  {| t_lemmas := lemma_rows b;
     t_forms := Sqlite.executemany_or_ignore form_conflict (form_rows b) [];
     t_concepts := concept_rows b;
     t_senses := senses b |}.

(** The primary key of a sense. *)
Definition sense_key (s : Z * Z * Z) : Z * Z :=
  (Graph.sense_lemma_id s, Graph.sense_concept s).

(** [source_pos], [hub_key] and [source_key] of the loop body [hub_add]. *)
Definition source_pos_of (pos_cache : list ((str * str) * str))
  (t : str * str * str) : str :=
  let '(lemma_from, lang_from, _) := t in
  match dict_get pair_eq_dec (lang_from, lemma_from) pos_cache with
  | Some p => p
  | None => UNKNOWN
  end.

Definition hub_key_of (pos_cache : list ((str * str) * str))
  (t : str * str * str) : str * str :=
  let '(_, _, translation) := t in
  (Canon._extract_english_lemma translation, source_pos_of pos_cache t).

Definition source_key_of (pos_cache : list ((str * str) * str))
  (t : str * str * str) : lemma_key :=
  let '(lemma_from, lang_from, _) := t in
  (lang_from, lemma_from, source_pos_of pos_cache t).

(** [english_hub[hub_key]], empty when the bucket is missing. *)
Definition bucket_at (h : hub) (hub_key : str * str)
  : list (lemma_key * Z) :=
  match dict_get pair_eq_dec hub_key h with
  | Some d => d
  | None => []
  end.

(** The translation [t] is already entered in the hub: its source key is
    in the bucket of its hub key. *)
Definition entered (pos_cache : list ((str * str) * str)) (h : hub)
  (t : str * str * str) : Prop :=
  dict_mem key_eq_dec (source_key_of pos_cache t)
           (bucket_at h (hub_key_of pos_cache t)) = true.

(** The translations that the clustering reads, over all the databases. *)
Definition all_en_translations
  (translation_dbs : list (option (list (str * str * str * str))))
  : list (str * str * str) :=
  flat_map (fun db => match db with
                      | Some rows => en_translations rows
                      | None => []
                      end)
           translation_dbs.

(** The key of a form is in the lemma table. *)
Definition form_known (d : list (lemma_key * Z))
  (f : str * str * str * str) : Prop :=
  let '(lang, form, lemma, pos) := f in
  dict_get key_eq_dec (lang, lemma, pos) d <> None.

(** The items of every bucket have distinct keys. *)
Definition hub_distinct (h : hub) : Prop :=
  forall hub_key translations,
    In (hub_key, translations) h -> NoDup (List.map fst translations).

End Numbering.

(* ===================================================================== *)
(** ** Directions of translation records                                  *)
(* ===================================================================== *)

Module Direction.
Import Py Bidirectional.


(** A text that the canonicalizer only lower-cases and trims: no
    infinitive marker in front, no parenthesis, no separator. *)
Definition plain (s : str) : Prop :=
  startswith (lit "to ") s = false
  /\ has (chr "(") s = false
  /\ has (chr ",") s = false
  /\ has (chr ";") s = false
  /\ has (chr "/") s = false.

End Direction.

(* ===================================================================== *)
(** ** Kaikki entries and [extract_translations]                          *)
(* ===================================================================== *)

Module Kaikki.
Import Py.

(** An item of the array [translations] of an entry: [trans.get('code')]
    ([None] when the item has no code) and [trans.get('word', '')]. *)
Record translation_item : Type := mkItem {
  code : option str;
  item_word : str
}.

(** A sense of an entry.  A gloss that is not a string is [None].  A
    category that is not a dictionary is [None]; for a dictionary, the
    value is [cat.get('orig', '')], [None] when that is not a string. *)
Record sense : Type := mkSense {
  glosses : list (option str);
  categories : list (option (option str))
}.

(** A line of the JSONL file after [json.loads], with the defaults of the
    [get] calls filled in: [entry.get('word', '')],
    [entry.get('translations', [])], [entry.get('senses', [])]. *)
Record entry : Type := mkEntry {
  word : str;
  translations : list translation_item;
  senses : list sense
}.

(** [[cat.get('orig', '') for cat in categories if isinstance(cat, dict)]] *)
Definition category_names (s : sense) : list (option str) :=
  flat_map (fun cat => match cat with
                       | Some orig => [orig]
                       | None => []
                       end)
           (categories s).

(** [x.strip().lower()] *)
Definition clean (x : str) : str := lower (strip x).

(** [not s] for a string. *)
Definition empty (s : str) : bool :=
  match s with [] => true | _ :: _ => false end.

Definition str_eqb (a b : str) : bool :=
  if str_eq_dec a b then true else false.

End Kaikki.

(** *** build_translations.py *)

Module ExtractSingle.
Import Py Kaikki.

Definition record : Type := str * str * str * str.

(** The loop [for gloss in glosses] with its counter [glosses_added]; the
    [break] ends the loop once three glosses of the sense were taken. *)
Fixpoint gloss_loop (word lang_from lang_to : str)
  (names : list (option str)) (gs : list (option str))
  (glosses_added : Z) : list record :=
  match gs with
  | [] => []
  | None :: rest =>
      gloss_loop word lang_from lang_to names rest glosses_added
  | Some gloss :: rest =>
      if empty gloss then
        gloss_loop word lang_from lang_to names rest glosses_added
      else if Translations.is_technical_definition gloss (Some names) then
        gloss_loop word lang_from lang_to names rest glosses_added
      else
        let translation := clean gloss in
        if negb (empty translation) && negb (str_eqb translation word) then
          (word, lang_from, translation, lang_to)
          :: (if glosses_added + 1 >=? 3 then []
              else gloss_loop word lang_from lang_to names rest
                              (glosses_added + 1))
        else gloss_loop word lang_from lang_to names rest glosses_added
  end.

(** [any(is_inflected_form_definition(g) for g in glosses if
    isinstance(g, str))] *)
Definition any_inflected (gs : list (option str)) : bool :=
  existsb (fun g => match g with
                    | Some gloss =>
                        Translations.is_inflected_form_definition gloss
                    | None => false
                    end)
          gs.

(** The body of [for sense in senses]: a sense with an inflection gloss is
    skipped as a whole. *)
Definition sense_records (word lang_from lang_to : str) (s : sense)
  : list record :=
  if any_inflected (glosses s) then []
  else gloss_loop word lang_from lang_to (category_names s) (glosses s) 0.

(** The body of [for line_num, line in enumerate(f, 1)]; a line that
    [json.loads] rejects is [None]. *)
Definition line_records (lang_from lang_to : str) (line : option entry)
  : list record :=
  match line with
  | None => []
  | Some e =>
      let w := clean (word e) in
      if empty w then []
      else if len w =? 1 then []
      else flat_map (sense_records w lang_from lang_to) (senses e)
  end.

(** [extract_translations]: the list returned, from the lines of the file. *)
Definition extract_translations (lines : list (option entry))
  (lang_from lang_to : str) : list record :=
  flat_map (line_records lang_from lang_to) lines.

End ExtractSingle.

(** *** build_translations_bidirectional.py *)

Module ExtractBidirectional.
Import Py Kaikki.

Definition record : Type := Bidirectional.record.

(** The loop [for trans in trans_list] with its counter
    [translations_added]. *)
Fixpoint translation_loop (word lang_from lang_to : str)
  (trans_list : list translation_item) (translations_added : Z)
  : list record :=
  match trans_list with
  | [] => []
  | trans :: rest =>
      let same_code :=
        match code trans with
        | Some c => str_eqb c lang_to
        | None => false
        end in
      if negb same_code then
        translation_loop word lang_from lang_to rest translations_added
      else
        let translation_word := clean (item_word trans) in
        if empty translation_word || str_eqb translation_word word then
          translation_loop word lang_from lang_to rest translations_added
        else if len translation_word =? 1 then
          translation_loop word lang_from lang_to rest translations_added
        else
          (word, lang_from, translation_word, lang_to)
          :: (if translations_added + 1 >=? 3 then []
              else translation_loop word lang_from lang_to rest
                                    (translations_added + 1))
  end.

(** The loop [for gloss in glosses]: here an inflection gloss is skipped
    by itself, not with its sense. *)
Fixpoint gloss_loop (word lang_from lang_to : str)
  (names : list (option str)) (gs : list (option str))
  (glosses_added : Z) : list record :=
  match gs with
  | [] => []
  | None :: rest =>
      gloss_loop word lang_from lang_to names rest glosses_added
  | Some gloss :: rest =>
      if empty gloss then
        gloss_loop word lang_from lang_to names rest glosses_added
      else if Bidirectional.is_inflected_form_definition gloss then
        gloss_loop word lang_from lang_to names rest glosses_added
      else if Bidirectional.is_technical_definition gloss (Some names) then
        gloss_loop word lang_from lang_to names rest glosses_added
      else
        let translation := clean gloss in
        if negb (empty translation) && negb (str_eqb translation word) then
          (word, lang_from, translation, lang_to)
          :: (if glosses_added + 1 >=? 3 then []
              else gloss_loop word lang_from lang_to names rest
                              (glosses_added + 1))
        else gloss_loop word lang_from lang_to names rest glosses_added
  end.

Definition sense_records (word lang_from lang_to : str) (s : sense)
  : list record :=
  gloss_loop word lang_from lang_to (category_names s) (glosses s) 0.

(** [extracting_from_english = (lang_from == 'en')] *)
Definition extracting_from_english (lang_from : str) : bool :=
  str_eqb lang_from (lit "en").

Definition line_records (lang_from lang_to : str) (line : option entry)
  : list record :=
  match line with
  | None => []
  | Some e =>
      let w := clean (word e) in
      if empty w then []
      else if len w =? 1 then []
      else if extracting_from_english lang_from then
        translation_loop w lang_from lang_to (translations e) 0
      else flat_map (sense_records w lang_from lang_to) (senses e)
  end.

Definition extract_translations (lines : list (option entry))
  (lang_from lang_to : str) : list record :=
  flat_map (line_records lang_from lang_to) lines.

End ExtractBidirectional.

(** *** The table [translations] *)

Module TranslationDb.
Import Py Sqlite.

Definition record : Type := str * str * str * str.

Definition record_eq_dec : forall a b : record, {a = b} + {a <> b}.
Proof. decide equality; try apply str_eq_dec; decide equality;
       try apply str_eq_dec; decide equality; apply str_eq_dec. Defined.

(** [UNIQUE(lemma_from, lang_from, translation, lang_to)]; the column
    [id] is given by the table and read by no script. *)
Definition record_conflict (r r' : record) : bool :=
  if record_eq_dec r r' then true else false.

(** [insert_translations]: the rows of the table afterwards. *)
Definition insert_translations (table : list record)
  (translations : list record) : list record :=
  executemany_or_ignore record_conflict translations table.

(** The end of [main] of build_translations_bidirectional.py: augment, then
    insert both directions.  [create_translation_db] creates the table only
    if it does not exist: [table] holds the rows found at the output path
    (none for a new file).  [main] exits before this step when both lists
    are empty. *)
Definition store_pair (table : list record)
  (translations1 translations2 : list record) : list record :=
  let '(t1, t2) := Bidirectional.augment translations1 translations2 in
  insert_translations (insert_translations table t1) t2.

(** The number of senses of the lines of a file. *)
Definition total_senses (lines : list (option Kaikki.entry)) : Z :=
  len (flat_map (fun line => match line with
                             | Some e => Kaikki.senses e
                             | None => []
                             end)
                lines).




End TranslationDb.

Module KaikkiSamples.
Import Py Kaikki.

(** A Spanish entry with a genuine gloss, an inflection reference and a
    place name, and an English entry with two translations. *)
Definition perro : entry :=
  {| word := lit "Perro";
     translations := [];
     senses := [ {| glosses := [Some (lit "Dog "); Some (lit "plural of perros");
                                Some (lit "a city in Lombardy"); None];
                    categories := [Some (Some (lit "es:Animals")); None] |} ] |}.

Definition dog : entry :=
  {| word := lit "dog";
     translations := [ {| code := Some (lit "es"); item_word := lit "perro" |};
                       {| code := Some (lit "fr"); item_word := lit "chien" |};
                       {| code := None; item_word := lit "can" |} ];
     senses := [] |}.

(** A Spanish entry without an inflection reference. *)
Definition gato : entry :=
  {| word := lit " gato";
     translations := [];
     senses := [ {| glosses := [Some (lit "a city in Lombardy");
                                Some (lit "Cat")];
                    categories := [] |} ] |}.

Definition gato_lines : list (option entry) := [None; Some gato].
Definition es_lines : list (option entry) := [Some perro; None].
Definition en_lines : list (option entry) := [None; Some dog].

End KaikkiSamples.

(* ===================================================================== *)
(** ** Where the items of the hub come from                               *)
(* ===================================================================== *)

Module Trace.
Import Py Concepts Numbering.

(** Every item of every bucket was entered for a translation that [T]
    holds of, under the hub key and the source key of that translation. *)
Definition traced (pos_cache : list ((str * str) * str))
  (T : str * str * str -> Prop) (h : hub) : Prop :=
  forall hub_key translations k n,
    In (hub_key, translations) h -> In (k, n) translations ->
    exists t, T t /\ hub_key = hub_key_of pos_cache t
              /\ k = source_key_of pos_cache t.

(** The POS cache of a build. *)
Definition cache_of (langpack : str -> option (list langpack_row))
  : list ((str * str) * str) :=
  build_pos_cache (lemmas (extract_forms_and_lemmas langpack init)).

End Trace.

(* ===================================================================== *)
(** ** build_lemmas.py: combining the lemma mappings                      *)
(* ===================================================================== *)

Module LemmaPack.
Import Py.

(** [(word, lemma, pos)] *)
Definition mapping : Type := str * str * str.

(** [for word, lemma, pos in l: combined[word] = (lemma, pos)] *)
Definition add_all (l : list mapping) (combined : list (str * (str * str)))
  : list (str * (str * str)) :=
  fold_left (fun d (m : mapping) =>
               let '(word, lemma, pos) := m in
               dict_set str_eq_dec word (lemma, pos) d)
            l combined.

(** The end of [enhance_with_kaikki_lemmas], from [combined = {}] on:
    [lemma_mappings] is the argument of the function, [kaikki_lemmas] the
    list that its loop over the Kaikki file has built. *)
Definition combine (lemma_mappings kaikki_lemmas : list mapping)
  : list mapping :=
  let combined := add_all lemma_mappings [] in
  let combined := add_all kaikki_lemmas combined in
  List.map (fun e : str * (str * str) =>
              let '(word, (lemma, pos)) := e in (word, lemma, pos))
           combined.

(** The last mapping of [l] for the word [w]. *)
Fixpoint last_of (w : str) (l : list mapping) : option (str * str) :=
  match l with
  | [] => None
  | (word, lemma, pos) :: rest =>
      match last_of w rest with
      | Some m => Some m
      | None => if str_eq_dec w word then Some (lemma, pos) else None
      end
  end.

Definition mapping_word (m : mapping) : str := let '(w, _, _) := m in w.

End LemmaPack.

(* ===================================================================== *)
(** * Properties                                                          *)
(* ===================================================================== *)

(** ** The lemma canonicalizer: examples *)

Section CanonExamples.
Import Py Canon Samples.

(** C5: the canonicalizer maps "to be (copula)" to "be", "hello, hi, hey" to
    "hello", "apocopic form of mío, my" to "my" and "greetings; hello
    (general salutation)" to "greetings". *)
Theorem canonicalizer_examples :
  _extract_english_lemma gloss_be = lit "be"
  /\ _extract_english_lemma gloss_hello = lit "hello"
  /\ _extract_english_lemma gloss_my = lit "my"
  /\ _extract_english_lemma gloss_greetings = lit "greetings".
Proof. repeat split; vm_compute; reflexivity. Qed.

End CanonExamples.

(** ** The matcher does not depend on its fuel *)

Section RegexFacts.
Import Py Re.

Lemma matches_eq (f : nat) (r : regex) (prev : option N) (s : str)
  (k : option N -> str -> bool) :
  matches f r prev s k
  = match r with
    | Lit l => match_lit l prev s k
    | Dot => match s with
             | c :: s' => negb (N.eqb c 10) && k (Some c) s'
             | [] => false
             end
    | Word => match s with
              | c :: s' => is_word c && k (Some c) s'
              | [] => false
              end
    | Seq a b => matches f a prev s (fun p s' => matches f b p s' k)
    | Alt a b => matches f a prev s k || matches f b prev s k
    | Star a =>
        k prev s ||
        match f with
        | O => false
        | S f0 => matches f a prev s (fun p s' =>
                    Nat.ltb (List.length s') (List.length s)
                    && matches f0 (Star a) p s' k)
        end
    | Bol => match prev with None => k prev s | Some _ => false end
    | Eol => match s with
             | [] => k prev s
             | [c] => N.eqb c 10 && k prev s
             | _ => false
             end
    | WordB => xorb (word_before prev) (word_after s) && k prev s
    end.
Proof. destruct f; destruct r; reflexivity. Qed.

Lemma match_lit_ext (l : str) (prev : option N) (s : str)
  (k k' : option N -> str -> bool) :
  (forall p s', (List.length s' <= List.length s)%nat -> k p s' = k' p s') ->
  match_lit l prev s k = match_lit l prev s k'.
Proof.
  revert prev s. induction l as [|x l IH]; intros prev s H; simpl.
  - apply H. lia.
  - destruct s as [|y s]; [reflexivity|]. f_equal.
    apply IH. intros p s' Hs'. apply H. simpl. lia.
Qed.

(** With a continuation that always fails, the matcher fails. *)
Lemma matches_false (f : nat) (r : regex) (prev : option N) (s : str)
  (k : option N -> str -> bool) :
  (forall p s', k p s' = false) -> matches f r prev s k = false.
Proof.
  revert r prev s k. induction f as [|f IHf];
    induction r as [l| | |a IHa b IHb|a IHa b IHb|a IHa| | |];
    intros prev s k Hk; rewrite matches_eq;
    try (destruct s as [|c s]; rewrite ?Hk, ?andb_false_r; reflexivity);
    try (rewrite Hk, ?andb_false_r; reflexivity).
  - revert prev s. induction l as [|x l IH]; intros prev [|y s]; simpl;
      rewrite ?Hk, ?IH, ?andb_false_r; reflexivity.
  - apply IHa. intros p s'. apply IHb, Hk.
  - rewrite IHa, IHb by exact Hk. reflexivity.
  - destruct prev; [reflexivity | apply Hk].
  - destruct s as [|c [|c' s]]; rewrite ?Hk, ?andb_false_r; reflexivity.
  - revert prev s. induction l as [|x l IH]; intros prev [|y s]; simpl;
      rewrite ?Hk, ?IH, ?andb_false_r; reflexivity.
  - apply IHa. intros p s'. apply IHb, Hk.
  - rewrite IHa, IHb by exact Hk. reflexivity.
  - rewrite Hk. simpl. apply IHa. intros p s'.
    rewrite IHf by exact Hk. apply andb_false_r.
  - destruct prev; [reflexivity | apply Hk].
  - destruct s as [|c [|c' s]]; rewrite ?Hk, ?andb_false_r; reflexivity.
Qed.

Ltac unfold_matches :=
  match goal with
  | |- matches ?f ?r ?p ?s ?k = matches ?f' ?r ?p ?s ?k' =>
      rewrite (matches_eq f r p s k), (matches_eq f' r p s k')
  end.

Lemma matches_fuel_ext (r : regex) :
  forall (f f' : nat) (prev : option N) (s : str)
         (k k' : option N -> str -> bool),
    (List.length s <= f)%nat -> (List.length s <= f')%nat ->
    (forall p s', (List.length s' <= List.length s)%nat ->
                  k p s' = k' p s') ->
    matches f r prev s k = matches f' r prev s k'.
Proof.
  induction r as [l| | |a IHa b IHb|a IHa b IHb|a IHa| | |].
  - intros f f' prev s k k' Hf Hf' Hk. unfold_matches.
    apply match_lit_ext, Hk.
  - intros f f' prev s k k' Hf Hf' Hk. unfold_matches.
    destruct s as [|c s]; [reflexivity|].
    rewrite (Hk (Some c) s) by (simpl; lia). reflexivity.
  - intros f f' prev s k k' Hf Hf' Hk. unfold_matches.
    destruct s as [|c s]; [reflexivity|].
    rewrite (Hk (Some c) s) by (simpl; lia). reflexivity.
  - intros f f' prev s k k' Hf Hf' Hk. unfold_matches.
    apply IHa; try assumption. intros p s' Hs'.
    apply IHb; try lia. intros p' s'' Hs''. apply Hk. lia.
  - intros f f' prev s k k' Hf Hf' Hk. unfold_matches.
    rewrite (IHa f f' prev s k k'), (IHb f f' prev s k k') by assumption.
    reflexivity.
  - assert (Hstar : forall n s, (List.length s <= n)%nat ->
               forall f f' prev (k k' : option N -> str -> bool),
                 (List.length s <= f)%nat -> (List.length s <= f')%nat ->
                 (forall p s', (List.length s' <= List.length s)%nat ->
                               k p s' = k' p s') ->
                 matches f (Star a) prev s k = matches f' (Star a) prev s k');
      [|intros f f' prev s; apply (Hstar (List.length s)); lia].
    induction n as [|n IHn]; intros s Hle f f' prev k k' Hf Hf' Hk;
      unfold_matches; rewrite (Hk prev s) by lia; f_equal.
    + destruct s; [|simpl in Hle; lia].
      destruct f, f'; try reflexivity;
        rewrite ?matches_false by (intros p s'; reflexivity); reflexivity.
    + destruct f as [|f0], f' as [|f0'].
      * reflexivity.
      * destruct s; [|simpl in Hf; lia].
        symmetry. apply matches_false. intros p s'. reflexivity.
      * destruct s; [|simpl in Hf'; lia].
        apply matches_false. intros p s'. reflexivity.
      * apply IHa; try assumption. intros p s' Hs'.
        destruct (Nat.ltb_spec (List.length s') (List.length s)) as [Hlt|Hge];
          [|reflexivity].
        simpl. apply IHn; try lia. intros p' s'' Hs''. apply Hk. lia.
  - intros f f' prev s k k' Hf Hf' Hk. unfold_matches.
    destruct prev; [reflexivity | apply Hk; lia].
  - intros f f' prev s k k' Hf Hf' Hk. unfold_matches.
    destruct s as [|c [|c' s]]; rewrite ?(Hk prev) by (simpl; lia);
      reflexivity.
  - intros f f' prev s k k' Hf Hf' Hk. unfold_matches.
    rewrite (Hk prev s) by lia. reflexivity.
Qed.

(** Any fuel that covers the text gives the same answer. *)
Lemma matches_fuel_irrelevant (r : regex) (f f' : nat) (prev : option N)
  (s : str) (k : option N -> str -> bool) :
  (List.length s <= f)%nat -> (List.length s <= f')%nat ->
  matches f r prev s k = matches f' r prev s k.
Proof.
  intros Hf Hf'. apply matches_fuel_ext; auto.
Qed.

End RegexFacts.

(** ** The gloss classifiers *)

Section ClassifierExamples.
Import Py Samples.

Lemma conjugation_is_inflection :
  Translations.is_inflected_form_definition gloss_conjugation = true
  /\ Bidirectional.is_inflected_form_definition gloss_conjugation = true.
Proof. split; vm_compute; reflexivity. Qed.

Lemma city_is_technical :
  Translations.is_technical_definition gloss_city None = true
  /\ Bidirectional.is_technical_definition gloss_city None = true.
Proof. split; vm_compute; reflexivity. Qed.

Lemma pronoun_is_genuine_in_build_translations :
  Translations.is_inflected_form_definition gloss_pronoun = false
  /\ Translations.is_technical_definition gloss_pronoun None = false.
Proof. split; vm_compute; reflexivity. Qed.

(** The pattern [^(first|second|third)-person (singular|plural)] of the
    German table is the one that matches the pronoun gloss. *)
Lemma pronoun_matches_german_pattern :
  List.map (fun p => Re.search p (lower gloss_pronoun))
           Bidirectional.german_inflection_patterns
  = [false; false; false; false; false; false; true; false; false; false;
     false; false; false; false; false].
Proof. vm_compute; reflexivity. Qed.

(** C6: both scripts call "third-person plural future indicative of muñir"
    an inflection and "a city in Lombardy" technical; on "first-person
    singular pronoun; I" the technical predicate answers false in both
    scripts and the inflection predicate of build_translations.py answers
    false, but the inflection predicate of
    build_translations_bidirectional.py answers true, against its own
    docstring, which lists that gloss among those to keep. *)
Theorem pronoun_gloss_rejected_by_bidirectional :
  Translations.is_inflected_form_definition gloss_conjugation = true
  /\ Bidirectional.is_inflected_form_definition gloss_conjugation = true
  /\ Translations.is_technical_definition gloss_city None = true
  /\ Bidirectional.is_technical_definition gloss_city None = true
  /\ Translations.is_inflected_form_definition gloss_pronoun = false
  /\ Translations.is_technical_definition gloss_pronoun None = false
  /\ Bidirectional.is_technical_definition gloss_pronoun None = false
  /\ Bidirectional.is_inflected_form_definition gloss_pronoun = true.
Proof. repeat split; vm_compute; reflexivity. Qed.

End ClassifierExamples.

(** ** Record mirroring and direction augmentation *)

Section Augmentation.
Import Py Bidirectional Samples.

Lemma mirror_involutive (r : record) : mirror (mirror r) = r.
Proof. destruct r as [[[lemma_from lang_from] translation] lang_to]. reflexivity. Qed.

(** C10: mirroring a list of records twice gives the list back. *)
Theorem reverse_translations_involutive (L : list record) :
  reverse_translations (reverse_translations L) = L.
Proof.
  unfold reverse_translations.
  induction L as [|r L IH]; simpl.
  - reflexivity.
  - rewrite mirror_involutive, IH. reflexivity.
Qed.

Lemma len_app {A} (l1 l2 : list A) : len (l1 ++ l2) = len l1 + len l2.
Proof. unfold len. rewrite length_app. lia. Qed.


Lemma len_records (n : N) : len (records n) = Z.of_N n.
Proof. unfold len, records. rewrite repeat_length. lia. Qed.






End Augmentation.

(** ** The lemma canonicalizer: repeated application *)

Section CanonTwice.
Import Py Canon Samples.








Lemma In_skipn (n : nat) (x : N) (s : str) : In x (skipn n s) -> In x s.
Proof.
  revert s. induction n as [|n IH]; intros [|y s]; simpl; auto.
Qed.




















Lemma jargon_loop_no_comma (ps : list str) (s : str) :
  has (chr ",") s = false -> jargon_loop ps s = s.
Proof.
  intros H. induction ps as [|p ps IH]; cbn [jargon_loop]; [reflexivity|].
  rewrite H. destruct (contains p (lower s)); exact IH.
Qed.

Lemma sep_loop_none (seps : list N) (s : str) :
  (forall c, In c seps -> has c s = false) -> sep_loop seps s = s.
Proof.
  induction seps as [|c seps IH]; cbn [sep_loop]; intros H; [reflexivity|].
  rewrite (H c) by (left; reflexivity).
  apply IH. intros c' Hc'. apply H. right. exact Hc'.
Qed.







(** The separators are tried in the order comma, semicolon, slash, so a
    semicolon before the first comma survives one application. *)
Lemma canonicalizer_keeps_early_semicolon :
  _extract_english_lemma (lit "a; b, c") = lit "a; b"
  /\ _extract_english_lemma (lit "a; b") = lit "a".
Proof. split; vm_compute; reflexivity. Qed.

End CanonTwice.

(** ** Loading the store *)

Section TableFacts.
Import Sqlite.
Context {Row : Type} (conflict : Row -> Row -> bool).
Hypothesis conflict_refl : forall r, conflict r r = true.

Lemma violates_app (r : Row) (t l : list Row) :
  violates conflict r t = true -> violates conflict r (t ++ l) = true.
Proof.
  unfold violates. rewrite existsb_app. intros ->. reflexivity.
Qed.

Lemma violates_insert_or_ignore (r r' : Row) (t : list Row) :
  violates conflict r t = true ->
  violates conflict r (insert_or_ignore conflict r' t) = true.
Proof.
  intros H. unfold insert_or_ignore.
  destruct (violates conflict r' t); [exact H | apply violates_app, H].
Qed.

Lemma violates_after_load (rows : list Row) (r : Row) (t : list Row) :
  violates conflict r t = true ->
  violates conflict r (executemany_or_ignore conflict rows t) = true.
Proof.
  unfold executemany_or_ignore. revert t.
  induction rows as [|r' rows IH]; intros t H; simpl; [exact H|].
  apply IH, violates_insert_or_ignore, H.
Qed.

Lemma violates_own_insert (r : Row) (t : list Row) :
  violates conflict r (insert_or_ignore conflict r t) = true.
Proof.
  unfold insert_or_ignore. destruct (violates conflict r t) eqn:E; [exact E|].
  unfold violates. rewrite existsb_app. simpl.
  rewrite conflict_refl. rewrite orb_true_r. reflexivity.
Qed.

Lemma loaded_rows_violate (rows : list Row) (t : list Row) (r : Row) :
  In r rows ->
  violates conflict r (executemany_or_ignore conflict rows t) = true.
Proof.
  revert t. induction rows as [|r' rows IH]; intros t; simpl; [tauto|].
  intros [->|Hin].
  - apply (violates_after_load rows), violates_own_insert.
  - apply (IH (insert_or_ignore conflict r' t)), Hin.
Qed.

Lemma load_of_present_rows (rows : list Row) (t : list Row) :
  (forall r, In r rows -> violates conflict r t = true) ->
  executemany_or_ignore conflict rows t = t.
Proof.
  unfold executemany_or_ignore.
  induction rows as [|r rows IH]; intros H; simpl; [reflexivity|].
  unfold insert_or_ignore at 2. rewrite (H r) by (left; reflexivity).
  apply IH. intros r' Hr'. apply H. right. exact Hr'.
Qed.






End TableFacts.

Section StoreFacts.
Import Py Sqlite Concepts Samples.





(** What the output location holds when [create_concepts_db] ends. *)
Lemma create_concepts_db_outcome (b : builder) (fault : stage -> bool)
  (output_path : option db) :
  create_concepts_db b fault output_path
  = match transaction b fault with
    | Ok d => (Some d, Ok tt)
    | Raised e => (Some empty_db, Raised e)
    end.
Proof.
  unfold create_concepts_db. destruct output_path; reflexivity.
Qed.

(** C8, as the code has it: a store found at the output location is deleted
    before anything is written; when the build then fails inside the insert
    transaction the location holds a new store with the schema and no row,
    whatever it held before, and when the build succeeds it holds the store
    that the transaction committed. *)
Theorem failed_build_leaves_empty_store (b : builder) (fault : stage -> bool)
  (output_path : option db) :
  match snd (create_concepts_db b fault output_path) with
  | Raised _ => fst (create_concepts_db b fault output_path) = Some empty_db
  | Ok _ => exists d, transaction b fault = Ok d
                      /\ fst (create_concepts_db b fault output_path) = Some d
  end.
Proof.
  rewrite create_concepts_db_outcome.
  destruct (transaction b fault) as [d|e]; simpl.
  - exists d. split; reflexivity.
  - reflexivity.
Qed.

(** C8, as the claim has it, fails: the storage fails while the senses are
    loaded, and the store of the earlier build is gone. *)
Lemma failed_build_loses_previous_store :
  snd (create_concepts_db sample_builder fault_at_senses (Some old_store))
  = Raised OperationalError
  /\ fst (create_concepts_db sample_builder fault_at_senses (Some old_store))
     <> Some old_store.
Proof. split; vm_compute; [reflexivity | discriminate]. Qed.

End StoreFacts.

(** ** Dictionaries and sorting *)

Section DictFacts.
Import Py.
Context {K V : Type} (eq_dec : forall a b : K, {a = b} + {a <> b}).

Lemma dict_get_In (k : K) (v : V) (d : list (K * V)) :
  dict_get eq_dec k d = Some v -> In (k, v) d.
Proof.
  induction d as [|[k' v'] d IH]; simpl; [discriminate|].
  destruct (eq_dec k k') as [->|Hne].
  - intros [= ->]. left. reflexivity.
  - intros H. right. apply IH, H.
Qed.

Lemma dict_get_notin (k : K) (d : list (K * V)) :
  dict_get eq_dec k d = None -> ~ In k (List.map fst d).
Proof.
  induction d as [|[k' v'] d IH]; simpl; [tauto|].
  destruct (eq_dec k k') as [->|Hne]; [discriminate|].
  intros H [E|Hin]; [congruence | exact (IH H Hin)].
Qed.

Lemma In_dict_get (k : K) (v : V) (d : list (K * V)) :
  NoDup (List.map fst d) -> In (k, v) d -> dict_get eq_dec k d = Some v.
Proof.
  induction d as [|[k' v'] d IH]; simpl; [tauto|].
  intros Hnd [E|Hin]; inversion Hnd as [|? ? Hnotin Hnd']; subst.
  - injection E as -> ->. destruct (eq_dec k k); [reflexivity | congruence].
  - destruct (eq_dec k k') as [->|Hne]; [|apply IH; assumption].
    exfalso. apply Hnotin. apply (in_map fst) in Hin. exact Hin.
Qed.

Lemma dict_set_absent (k : K) (v : V) (d : list (K * V)) :
  dict_get eq_dec k d = None -> dict_set eq_dec k v d = d ++ [(k, v)].
Proof.
  induction d as [|[k' v'] d IH]; simpl; [reflexivity|].
  destruct (eq_dec k k'); [discriminate|].
  intros H. rewrite IH by exact H. reflexivity.
Qed.

Lemma dict_get_set (k k0 : K) (v0 : V) (d : list (K * V)) :
  dict_get eq_dec k (dict_set eq_dec k0 v0 d)
  = if eq_dec k k0 then Some v0 else dict_get eq_dec k d.
Proof.
  induction d as [|[k' v'] d IH]; simpl.
  - destruct (eq_dec k k0); reflexivity.
  - destruct (eq_dec k0 k') as [->|Hne]; simpl.
    + destruct (eq_dec k k'); reflexivity.
    + destruct (eq_dec k k') as [->|Hne'].
      * destruct (eq_dec k' k0); [congruence | reflexivity].
      * exact IH.
Qed.

Lemma In_dict_set (k k0 : K) (v v0 : V) (d : list (K * V)) :
  In (k, v) (dict_set eq_dec k0 v0 d) ->
  In (k, v) d \/ (k = k0 /\ v = v0).
Proof.
  induction d as [|[k' v'] d IH]; simpl.
  - intros [[= <- <-]|[]]. right. split; reflexivity.
  - destruct (eq_dec k0 k') as [->|Hne]; simpl.
    + intros [[= <- <-]|Hin]; [right; split; reflexivity | left; right; exact Hin].
    + intros [E|Hin]; [left; left; exact E|].
      destruct (IH Hin) as [H|H]; [left; right; exact H | right; exact H].
Qed.

Lemma keys_dict_set (k : K) (v : V) (d : list (K * V)) :
  List.map fst (dict_set eq_dec k v d)
  = if dict_mem eq_dec k d then List.map fst d else List.map fst d ++ [k].
Proof.
  unfold dict_mem.
  induction d as [|[k' v'] d IH]; simpl; [reflexivity|].
  destruct (eq_dec k k') as [->|Hne]; simpl; [reflexivity|].
  rewrite IH. destruct (dict_get eq_dec k d); reflexivity.
Qed.

Lemma NoDup_dict_set (k : K) (v : V) (d : list (K * V)) :
  NoDup (List.map fst d) -> NoDup (List.map fst (dict_set eq_dec k v d)).
Proof.
  intros H. rewrite keys_dict_set. unfold dict_mem.
  destruct (dict_get eq_dec k d) eqn:E; [exact H|].
  apply NoDup_app; [exact H | repeat constructor; simpl; tauto |].
  intros x Hx [<-|[]]. exact (dict_get_notin _ _ E Hx).
Qed.

Lemma dict_get_app (k : K) (v : V) (d l : list (K * V)) :
  dict_get eq_dec k d = Some v -> dict_get eq_dec k (d ++ l) = Some v.
Proof.
  induction d as [|[k' v'] d IH]; simpl; [discriminate|].
  destruct (eq_dec k k'); [tauto | exact IH].
Qed.

End DictFacts.

Section SortFacts.
Import Py.
Context {A : Type} (leb : A -> A -> bool).
Let R (x y : A) : Prop := leb x y = true.
Hypothesis leb_total : forall x y, leb x y = false -> leb y x = true.
Hypothesis leb_trans :
  forall x y z, leb x y = true -> leb y z = true -> leb x z = true.

Lemma In_insert_sorted (x y : A) (l : list A) :
  In y (insert_sorted leb x l) <-> y = x \/ In y l.
Proof.
  induction l as [|z l IH]; simpl.
  - split; intros [H|H]; auto.
  - destruct (leb x z); simpl; [split; intros [H|H]; auto|].
    rewrite IH. tauto.
Qed.

Lemma In_sorted (y : A) (l : list A) : In y (sorted leb l) <-> In y l.
Proof.
  induction l as [|x l IH]; simpl; [tauto|].
  rewrite In_insert_sorted, IH. split; intros [H|H]; auto.
Qed.



End SortFacts.

Section SortedLists.
Import Py.
Context {A : Type} (R : A -> A -> Prop).




End SortedLists.

(** ** The order on strings and the ranking order *)

Section RankOrder.
Import Py Concepts.

Lemma str_ltb_irrefl (a : str) : str_ltb a a = false.
Proof.
  induction a as [|x a IH]; simpl; [reflexivity|].
  rewrite N.ltb_irrefl, N.eqb_refl, IH. reflexivity.
Qed.

Lemma str_ltb_cons (x y : N) (a b : str) :
  str_ltb (x :: a) (y :: b) = true <->
  (x < y)%N \/ (x = y /\ str_ltb a b = true).
Proof.
  simpl. rewrite orb_true_iff, andb_true_iff, N.ltb_lt, N.eqb_eq. tauto.
Qed.

Lemma str_ltb_trans (a b c : str) :
  str_ltb a b = true -> str_ltb b c = true -> str_ltb a c = true.
Proof.
  revert b c. induction a as [|x a IH]; intros [|y b] [|z c];
    try (simpl; congruence).
  rewrite !str_ltb_cons. intros [H1|[-> H1]] [H2|[-> H2]].
  - left. lia.
  - left. exact H1.
  - left. exact H2.
  - right. split; [reflexivity | eapply IH; eassumption].
Qed.



Lemma str_ltb_asym (a b : str) : str_ltb a b = true -> str_ltb b a = false.
Proof.
  intros H. destruct (str_ltb b a) eqn:E; [|reflexivity].
  pose proof (str_ltb_trans _ _ _ H E) as H'.
  rewrite str_ltb_irrefl in H'. discriminate.
Qed.







End RankOrder.

(** ** Grouping by language *)

Section Grouping.
Import Py Concepts Graph Plan.

Lemma dict_get_None {K V} (eq_dec : forall a b : K, {a = b} + {a <> b})
  (k : K) (d : list (K * V)) :
  ~ In k (List.map fst d) -> dict_get eq_dec k d = None.
Proof.
  induction d as [|[k' v'] d IH]; simpl; [reflexivity|].
  intros H. destruct (eq_dec k k') as [->|Hne]; [tauto|].
  apply IH. tauto.
Qed.

Lemma filter_all {A} (p : A -> bool) (l : list A) :
  Forall (fun x => p x = true) l -> filter p l = l.
Proof.
  induction 1 as [|x l Hx _ IH]; simpl; [reflexivity|].
  rewrite Hx, IH. reflexivity.
Qed.

Lemma filter_none {A} (p : A -> bool) (l : list A) :
  Forall (fun x => p x = false) l -> filter p l = [].
Proof.
  induction 1 as [|x l Hx _ IH]; simpl; [reflexivity|].
  rewrite Hx, IH. reflexivity.
Qed.

Lemma Forall_enumerate {A} (P : A -> Prop) (l : list A) (start : Z) :
  Forall P l -> Forall (fun x => P (snd x)) (enumerate start l).
Proof.
  intros H. revert start.
  induction H as [|x l Hx _ IH]; intros start; simpl; constructor; auto.
Qed.

Lemma Forall_take {A} (P : A -> Prop) (n : nat) (l : list A) :
  Forall P l -> Forall P (firstn n l).
Proof.
  intros H. revert n.
  induction H as [|x l Hx _ IH]; intros [|n]; simpl; constructor; auto.
Qed.

Lemma in_lang_flatten (lang : str) (x : lemma_key * Z) :
  tuple_lang (flatten x) = key_lang (fst x).
Proof. destruct x as [[[l m] p] n]. reflexivity. Qed.

Lemma entry_in_lang_tuple (lang : str) (n : Z) (e : str * str * str * Z) :
  entry_in_lang lang (n, e)
  = if str_eq_dec (tuple_lang e) lang then true else false.
Proof. destruct e as [[[l m] p] k]. reflexivity. Qed.

Lemma lang_plan_same (lang : str) (g : list (str * str * str * Z)) :
  Forall (fun e => tuple_lang e = lang) g ->
  filter (entry_in_lang lang) (lang_plan (lang, g)) = lang_plan (lang, g).
Proof.
  intros H. apply filter_all. unfold lang_plan. simpl.
  apply (Forall_take _ 3), (Forall_enumerate _ _ 1) in H.
  eapply Forall_impl; [|exact H].
  intros [n e] He. simpl in He. rewrite entry_in_lang_tuple.
  destruct (str_eq_dec (tuple_lang e) lang); [reflexivity | contradiction].
Qed.

Lemma lang_plan_other (lang lang' : str) (g : list (str * str * str * Z)) :
  lang' <> lang ->
  Forall (fun e => tuple_lang e = lang') g ->
  filter (entry_in_lang lang) (lang_plan (lang', g)) = [].
Proof.
  intros Hne H. apply filter_none. unfold lang_plan. simpl.
  apply (Forall_take _ 3), (Forall_enumerate _ _ 1) in H.
  eapply Forall_impl; [|exact H].
  intros [n e] He. simpl in He. rewrite entry_in_lang_tuple.
  destruct (str_eq_dec (tuple_lang e) lang); [congruence | reflexivity].
Qed.

(** The entries of one language are those of its group. *)
Lemma filter_groups (lang : str) (d : list (str * list (str * str * str * Z))) :
  NoDup (List.map fst d) ->
  (forall l g, In (l, g) d -> Forall (fun e => tuple_lang e = l) g) ->
  filter (entry_in_lang lang) (flat_map lang_plan d)
  = match dict_get str_eq_dec lang d with
    | Some g => lang_plan (lang, g)
    | None => []
    end.
Proof.
  induction d as [|[l g] d IH]; simpl; intros Hnd Hg; [reflexivity|].
  inversion Hnd as [|? ? Hnotin Hnd']; subst.
  rewrite filter_app.
  rewrite IH; [|exact Hnd' | intros l' g' H'; apply Hg; right; exact H'].
  destruct (str_eq_dec lang l) as [->|Hne].
  - rewrite lang_plan_same by (apply Hg; left; reflexivity).
    rewrite (dict_get_None str_eq_dec l d Hnotin). apply app_nil_r.
  - rewrite (lang_plan_other lang l);
      [reflexivity | congruence | apply Hg; left; reflexivity].
Qed.

Lemma by_lang_append_get (lang : str)
  (d : list (str * list (str * str * str * Z))) (x : lemma_key * Z) :
  dict_get str_eq_dec lang (by_lang_append d x)
  = merge (dict_get str_eq_dec lang d)
          (List.map flatten (filter (in_lang lang) [x])).
Proof.
  destruct x as [[[l m] p] n]. unfold by_lang_append.
  rewrite dict_get_set. simpl. unfold in_lang. simpl.
  destruct (str_eq_dec lang l) as [->|Hne].
  - destruct (str_eq_dec l l); [|congruence]. simpl.
    destruct (dict_get str_eq_dec l d); reflexivity.
  - destruct (str_eq_dec l lang); [congruence|]. simpl.
    destruct (dict_get str_eq_dec lang d); simpl;
      [rewrite app_nil_r|]; reflexivity.
Qed.

Lemma merge_merge {A} (o : option (list A)) (l1 l2 : list A) :
  merge (merge o l1) l2 = merge o (l1 ++ l2).
Proof.
  destruct o as [g|]; simpl.
  - rewrite app_assoc. reflexivity.
  - destruct l1; simpl; reflexivity.
Qed.

Lemma by_lang_get (lang : str) (st : list (lemma_key * Z))
  (d : list (str * list (str * str * str * Z))) :
  dict_get str_eq_dec lang (fold_left by_lang_append st d)
  = merge (dict_get str_eq_dec lang d)
          (List.map flatten (filter (in_lang lang) st)).
Proof.
  revert d. induction st as [|x st IH]; intros d.
  - simpl. destruct (dict_get str_eq_dec lang d); simpl;
      [rewrite app_nil_r|]; reflexivity.
  - change (fold_left by_lang_append (x :: st) d)
      with (fold_left by_lang_append st (by_lang_append d x)).
    rewrite IH, by_lang_append_get, merge_merge, <- map_app, <- filter_app.
    reflexivity.
Qed.

Lemma by_lang_keys (st : list (lemma_key * Z))
  (d : list (str * list (str * str * str * Z))) :
  NoDup (List.map fst d) ->
  NoDup (List.map fst (fold_left by_lang_append st d)).
Proof.
  revert d. induction st as [|x st IH]; intros d H; simpl; [exact H|].
  apply IH. destruct x as [[[l m] p] n]. unfold by_lang_append.
  apply NoDup_dict_set, H.
Qed.

Lemma in_lang_tuple (lang : str) (st : list (lemma_key * Z)) :
  Forall (fun e => tuple_lang e = lang)
         (List.map flatten (filter (in_lang lang) st)).
Proof.
  apply Forall_forall. intros e He. apply in_map_iff in He.
  destruct He as (x & <- & Hx). apply filter_In in Hx.
  destruct Hx as [_ Hx]. unfold in_lang in Hx.
  destruct x as [[[l m] p] n]. simpl in *.
  destruct (str_eq_dec l lang); [assumption | discriminate].
Qed.

(** The entries of the language [lang] in the plan of a bucket: the first
    three items of that language in sorted order, ranked from 1. *)
Lemma bucket_plan_lang (lang : str) (translations : list (lemma_key * Z)) :
  filter (entry_in_lang lang) (bucket_plan translations)
  = enumerate 1
      (firstn 3 (List.map flatten
                   (filter (in_lang lang) (sorted rank_leb translations)))).
Proof.
  unfold bucket_plan, translations_by_lang.
  set (st := sorted rank_leb translations).
  assert (Hget : forall l,
             dict_get str_eq_dec l (fold_left by_lang_append st [])
             = merge None (List.map flatten (filter (in_lang l) st))).
  { intros l. apply (by_lang_get l st []). }
  assert (Hnd : NoDup (List.map fst (fold_left by_lang_append st []))).
  { apply by_lang_keys. constructor. }
  rewrite filter_groups.
  - rewrite Hget. unfold merge, lang_plan.
    destruct (List.map flatten (filter (in_lang lang) st)); reflexivity.
  - exact Hnd.
  - intros l g Hin. apply (In_dict_get str_eq_dec) in Hin; [|exact Hnd].
    rewrite Hget in Hin. pose proof (in_lang_tuple l st) as Hall.
    destruct (List.map flatten (filter (in_lang l) st)); simpl in Hin;
      [discriminate|].
    injection Hin as <-. exact Hall.
Qed.

End Grouping.

(** ** The builder: lemmas and senses *)

Section BuilderFacts.
Import Py Concepts Graph Plan.

Lemma key_of_get (k : lemma_key) (i : Z) (d : list (lemma_key * Z)) :
  NoDup (List.map snd d) ->
  dict_get key_eq_dec k d = Some i -> key_of_id i d = Some k.
Proof.
  induction d as [|[k' i'] d IH]; simpl; [discriminate|].
  intros Hnd Hget. inversion Hnd as [|? ? Hnotin Hnd']; subst.
  destruct (key_eq_dec k k') as [->|Hne].
  - injection Hget as ->. rewrite Z.eqb_refl. reflexivity.
  - destruct (Z.eqb_spec i' i) as [->|Hi]; [|apply IH; assumption].
    exfalso. apply Hnotin. apply dict_get_In in Hget.
    apply (in_map snd) in Hget. exact Hget.
Qed.

Lemma key_of_id_app (i : Z) (k : lemma_key) (d l : list (lemma_key * Z)) :
  key_of_id i d = Some k -> key_of_id i (d ++ l) = Some k.
Proof.
  induction d as [|[k' i'] d IH]; simpl; [discriminate|].
  destruct (i' =? i); [tauto | exact IH].
Qed.

Lemma extends_refl (b : builder) : extends b b.
Proof. exists []. rewrite app_nil_r. reflexivity. Qed.

Lemma extends_trans (b1 b2 b3 : builder) :
  extends b1 b2 -> extends b2 b3 -> extends b1 b3.
Proof.
  intros [l1 H1] [l2 H2]. exists (l1 ++ l2).
  rewrite H2, H1, app_assoc. reflexivity.
Qed.

Lemma realises_extends (b b' : builder) (cid : Z) (x : entry) (s : Z * Z * Z) :
  extends b b' ->
  realises (lemmas b) cid x s -> realises (lemmas b') cid x s.
Proof.
  intros [l Hl] (Hc & Hr & Hk). repeat split; try assumption.
  rewrite Hl. apply key_of_id_app, Hk.
Qed.

Lemma add_lemma_spec (key : lemma_key) (b : builder) :
  wf b ->
  wf (add_lemma key b)
  /\ extends b (add_lemma key b)
  /\ senses (add_lemma key b) = senses b
  /\ concepts (add_lemma key b) = concepts b
  /\ next_concept_id (add_lemma key b) = next_concept_id b
  /\ key_of_id (lemma_id key (add_lemma key b)) (lemmas (add_lemma key b))
     = Some key.
Proof.
  intros [Hnd Hlt]. unfold add_lemma, dict_mem.
  destruct (dict_get key_eq_dec key (lemmas b)) as [i|] eqn:E.
  - repeat split; try assumption; try reflexivity.
    + apply extends_refl.
    + unfold lemma_id. rewrite E. apply key_of_get; assumption.
  - assert (Hset : dict_set key_eq_dec key (next_lemma_id b) (lemmas b)
                   = lemmas b ++ [(key, next_lemma_id b)])
      by (apply dict_set_absent, E).
    assert (Hnd' : NoDup (List.map snd
                            (lemmas b ++ [(key, next_lemma_id b)]))).
    { rewrite map_app. apply NoDup_app; [exact Hnd | |].
      - repeat constructor. simpl. tauto.
      - intros i Hi [<-|[]]. apply in_map_iff in Hi.
        destruct Hi as ([k i'] & Hi' & Hin). simpl in Hi'. subst.
        apply Hlt in Hin. lia. }
    unfold wf, extends, lemma_id. simpl. rewrite Hset.
    repeat split; try reflexivity.
    + exact Hnd'.
    + intros k i Hin. apply in_app_or in Hin.
      destruct Hin as [Hin|[[= <- <-]|[]]]; [apply Hlt in Hin|]; lia.
    + eexists. reflexivity.
    + rewrite <- Hset at 1. rewrite dict_get_set.
      destruct (key_eq_dec key key); [|congruence].
      apply key_of_get; [exact Hnd'|].
      rewrite <- Hset, dict_get_set.
      destruct (key_eq_dec key key); [reflexivity | congruence].
Qed.

Lemma add_sense_spec (cid : Z) (b : builder) (x : entry) :
  wf b ->
  wf (add_sense cid b x)
  /\ extends b (add_sense cid b x)
  /\ concepts (add_sense cid b x) = concepts b
  /\ next_concept_id (add_sense cid b x) = next_concept_id b
  /\ exists s, senses (add_sense cid b x) = senses b ++ [s]
               /\ realises (lemmas (add_sense cid b x)) cid x s.
Proof.
  intros Hwf. destruct x as [rank [[[lang lemma] pos] n]].
  unfold add_sense.
  destruct (add_lemma_spec (lang, lemma, pos) b Hwf)
    as (Hwf' & Hext & Hs & Hc & Hn & Hk).
  set (b1 := add_lemma (lang, lemma, pos) b) in *.
  unfold append_sense, wf, extends. simpl.
  repeat split; try assumption; try apply Hwf'.
  exists (lemma_id (lang, lemma, pos) b1, cid, rank).
  split; [rewrite Hs; reflexivity|].
  repeat split. exact Hk.
Qed.

Lemma fold_add_sense_spec (cid : Z) (plan : list entry) (b : builder) :
  wf b ->
  wf (fold_left (add_sense cid) plan b)
  /\ extends b (fold_left (add_sense cid) plan b)
  /\ concepts (fold_left (add_sense cid) plan b) = concepts b
  /\ next_concept_id (fold_left (add_sense cid) plan b) = next_concept_id b
  /\ exists new,
       senses (fold_left (add_sense cid) plan b) = senses b ++ new
       /\ Forall2 (realises (lemmas (fold_left (add_sense cid) plan b)) cid)
                  plan new.
Proof.
  revert b. induction plan as [|x plan IH]; intros b Hwf; simpl.
  - repeat split; try apply Hwf; try reflexivity; [apply extends_refl|].
    exists []. rewrite app_nil_r. split; [reflexivity | constructor].
  - destruct (add_sense_spec cid b x Hwf)
      as (Hwf1 & Hext1 & Hc1 & Hn1 & s & Hs1 & Hr1).
    destruct (IH _ Hwf1) as (Hwf' & Hext' & Hc' & Hn' & new & Hs' & Hr').
    repeat split; try apply Hwf'.
    + eapply extends_trans; eassumption.
    + congruence.
    + congruence.
    + exists (s :: new). split.
      * rewrite Hs', Hs1, <- app_assoc. reflexivity.
      * constructor; [|exact Hr'].
        eapply realises_extends; eassumption.
Qed.

Lemma fold_lang_senses (cid : Z)
  (groups : list (str * list (str * str * str * Z))) (b : builder) :
  fold_left (add_lang_senses cid) groups b
  = fold_left (add_sense cid) (flat_map lang_plan groups) b.
Proof.
  revert b. induction groups as [|[l g] groups IH]; intros b; simpl;
    [reflexivity|].
  rewrite fold_left_app, IH. reflexivity.
Qed.

Lemma add_concept_plan (b : builder)
  (bucket : (str * str) * list (lemma_key * Z)) :
  add_concept b bucket
  = fold_left (add_sense (next_concept_id b)) (full_plan bucket)
              (with_concept (fst bucket) b).
Proof.
  destruct bucket as [[english_lemma pos] translations].
  unfold add_concept, full_plan, bucket_plan.
  rewrite fold_left_app, <- fold_lang_senses. reflexivity.
Qed.

Lemma add_concept_spec (b : builder)
  (bucket : (str * str) * list (lemma_key * Z)) :
  wf b ->
  wf (add_concept b bucket)
  /\ extends b (add_concept b bucket)
  /\ next_concept_id (add_concept b bucket) = next_concept_id b + 1
  /\ concepts (add_concept b bucket)
     = dict_set pair_eq_dec (fst bucket) (next_concept_id b) (concepts b)
  /\ exists new,
       senses (add_concept b bucket) = senses b ++ new
       /\ Forall2 (realises (lemmas (add_concept b bucket))
                            (next_concept_id b))
                  (full_plan bucket) new.
Proof.
  intros Hwf. rewrite add_concept_plan.
  assert (Hwf1 : wf (with_concept (fst bucket) b)) by exact Hwf.
  destruct (fold_add_sense_spec (next_concept_id b) (full_plan bucket) _ Hwf1)
    as (Hwf' & Hext & Hc & Hn & new & Hs & Hr).
  repeat split; try apply Hwf'; try assumption.
  exists new. split; assumption.
Qed.

End BuilderFacts.

(** ** The builder: concepts *)

Section ConceptFacts.
Import Py Concepts Graph Plan.

Lemma realises_concept (d : list (lemma_key * Z)) (cid : Z)
  (plan : list entry) (new : list (Z * Z * Z)) :
  Forall2 (realises d cid) plan new ->
  Forall (fun s => sense_concept s = cid) new.
Proof.
  induction 1 as [|x s plan new Hr _ IH]; constructor; [apply Hr | exact IH].
Qed.

Lemma realises_all_extends (b b' : builder) (cid : Z)
  (plan : list entry) (new : list (Z * Z * Z)) :
  extends b b' ->
  Forall2 (realises (lemmas b) cid) plan new ->
  Forall2 (realises (lemmas b') cid) plan new.
Proof.
  intros Hext. induction 1 as [|x s plan new Hr _ IH]; constructor;
    [eapply realises_extends; eassumption | exact IH].
Qed.

Lemma filter_concept_same (cid : Z) (l : list (Z * Z * Z)) :
  Forall (fun s => sense_concept s = cid) l ->
  filter (fun s => sense_concept s =? cid) l = l.
Proof.
  intros H. apply filter_all. eapply Forall_impl; [|exact H].
  intros s Hs. apply Z.eqb_eq, Hs.
Qed.

Lemma filter_concept_other (cid : Z) (l : list (Z * Z * Z)) :
  Forall (fun s => sense_concept s <> cid) l ->
  filter (fun s => sense_concept s =? cid) l = [].
Proof.
  intros H. apply filter_none. eapply Forall_impl; [|exact H].
  intros s Hs. apply Z.eqb_neq, Hs.
Qed.

(** The senses and concepts after the loop over the buckets of the hub. *)
Lemma fold_add_concept_spec (h : hub) (b : builder) :
  wf b ->
  Forall (fun s => sense_concept s < next_concept_id b) (senses b) ->
  wf (fold_left add_concept h b)
  /\ extends b (fold_left add_concept h b)
  /\ next_concept_id b <= next_concept_id (fold_left add_concept h b)
  /\ (forall cid, cid < next_concept_id b ->
        concept_senses (fold_left add_concept h b) cid = concept_senses b cid)
  /\ (forall cid,
        next_concept_id b <= cid
        < next_concept_id (fold_left add_concept h b) ->
        exists bucket,
          In bucket h
          /\ Forall2 (realises (lemmas (fold_left add_concept h b)) cid)
                     (full_plan bucket)
                     (concept_senses (fold_left add_concept h b) cid))
  /\ (forall key cid,
        In (key, cid) (concepts (fold_left add_concept h b)) ->
        In (key, cid) (concepts b)
        \/ next_concept_id b <= cid
           < next_concept_id (fold_left add_concept h b)).
Proof.
  revert b. induction h as [|bucket h IH]; intros b Hwf Hold.
  - simpl. split; [exact Hwf|]. split; [apply extends_refl|].
    split; [lia|]. split; [reflexivity|]. split; [intros cid Hcid; lia|].
    intros key cid Hin. left. exact Hin.
  - change (fold_left add_concept (bucket :: h) b)
      with (fold_left add_concept h (add_concept b bucket)).
    destruct (add_concept_spec b bucket Hwf)
      as (Hwf1 & Hext1 & Hn1 & Hc1 & new & Hs1 & Hr1).
    set (b1 := add_concept b bucket) in *.
    pose proof (realises_concept _ _ _ _ Hr1) as Hnew.
    assert (Hold1 : Forall (fun s => sense_concept s < next_concept_id b1)
                           (senses b1)).
    { rewrite Hs1, Hn1. apply Forall_app. split.
      - eapply Forall_impl; [|exact Hold]. simpl. intros s Hs. lia.
      - eapply Forall_impl; [|exact Hnew]. simpl. intros s Hs. lia. }
    destruct (IH b1 Hwf1 Hold1) as (Hwf' & Hext' & Hn' & Hlow & Hhigh & Hcon).
    set (bf := fold_left add_concept h b1) in *.
    assert (Hb1 : forall cid,
               concept_senses b1 cid
               = concept_senses b cid
                 ++ filter (fun s => sense_concept s =? cid) new).
    { intros cid. unfold concept_senses. rewrite Hs1, filter_app.
      reflexivity. }
    repeat split; try apply Hwf'.
    + eapply extends_trans; eassumption.
    + lia.
    + intros cid Hcid. rewrite Hlow by lia. rewrite Hb1.
      rewrite filter_concept_other; [apply app_nil_r|].
      eapply Forall_impl; [|exact Hnew]. simpl. intros s Hs. lia.
    + intros cid Hcid.
      destruct (Z.eq_dec cid (next_concept_id b)) as [->|Hne].
      * exists bucket. split; [left; reflexivity|].
        rewrite Hlow by lia. rewrite Hb1.
        rewrite filter_concept_same by exact Hnew.
        unfold concept_senses. rewrite filter_concept_other.
        -- simpl. eapply realises_all_extends; eassumption.
        -- eapply Forall_impl; [|exact Hold]. simpl. intros s Hs. lia.
      * destruct (Hhigh cid) as (bk & Hin & Hr); [lia|].
        exists bk. split; [right; exact Hin | exact Hr].
    + intros key cid Hin. destruct (Hcon key cid Hin) as [H|H].
      * rewrite Hc1 in H. apply In_dict_set in H.
        destruct H as [H|[_ ->]]; [left; exact H | right; lia].
      * right. lia.
Qed.

(** *** The hub holds no English item *)

Lemma en_translations_lang (rows : list (str * str * str * str))
  (l_from lang_from trans : str) :
  In (l_from, lang_from, trans) (en_translations rows) -> lang_from <> en.
Proof.
  unfold en_translations. rewrite in_flat_map.
  intros ([[[l f] t] o] & _ & Hin).
  destruct (str_eq_dec o en); [|destruct Hin].
  destruct (str_eq_dec f en); [destruct Hin|].
  destruct Hin as [[= <- <- <-]|[]]. assumption.
Qed.

Lemma hub_add_ok (pos_cache : list ((str * str) * str)) (h : hub)
  (t : str * str * str) :
  snd (fst t) <> en -> hub_ok h -> hub_ok (hub_add pos_cache h t).
Proof.
  destruct t as [[lemma_from lang_from] translation]. simpl.
  intros Hlang Hok. unfold hub_add.
  set (source_pos := match dict_get pair_eq_dec (lang_from, lemma_from)
                                    pos_cache with
                     | Some p => p
                     | None => UNKNOWN
                     end).
  set (hub_key := (Canon._extract_english_lemma translation, source_pos)).
  set (bucket := match dict_get pair_eq_dec hub_key h with
                 | Some d => d
                 | None => []
                 end).
  assert (Hbucket : bucket_ok bucket).
  { subst bucket. destruct (dict_get pair_eq_dec hub_key h) as [d|] eqn:E.
    - apply dict_get_In in E. exact (Hok _ _ E).
    - intros k n []. }
  destruct (dict_mem key_eq_dec (lang_from, lemma_from, source_pos) bucket);
    [exact Hok|].
  intros hk tr Hin. apply In_dict_set in Hin.
  destruct Hin as [Hin|[_ ->]]; [exact (Hok _ _ Hin)|].
  intros k n Hk. apply In_dict_set in Hk.
  destruct Hk as [Hk|[-> ->]]; [exact (Hbucket _ _ Hk)|].
  simpl. split; [exact Hlang | reflexivity].
Qed.

Lemma fold_hub_add_ok (pos_cache : list ((str * str) * str))
  (ts : list (str * str * str)) (h : hub) :
  (forall t, In t ts -> snd (fst t) <> en) ->
  hub_ok h -> hub_ok (fold_left (hub_add pos_cache) ts h).
Proof.
  revert h. induction ts as [|t ts IH]; intros h Hts Hok; simpl; [exact Hok|].
  apply IH; [intros t' Ht'; apply Hts; right; exact Ht'|].
  apply hub_add_ok; [apply Hts; left; reflexivity | exact Hok].
Qed.

Lemma build_hub_ok (pos_cache : list ((str * str) * str))
  (translation_dbs : list (option (list (str * str * str * str)))) :
  hub_ok (build_hub pos_cache translation_dbs).
Proof.
  unfold build_hub.
  assert (H0 : hub_ok []) by (intros hk tr []).
  revert H0. generalize (@nil ((str * str) * list (lemma_key * Z))).
  induction translation_dbs as [|db dbs IH]; intros h Hok; simpl;
    [exact Hok|].
  apply IH. destruct db as [rows|]; [|exact Hok].
  apply fold_hub_add_ok; [|exact Hok].
  intros [[l f] t] Hin. simpl. eapply en_translations_lang, Hin.
Qed.

(** *** The langpacks *)

Lemma add_form_spec (lang : str) (b : builder) (row : langpack_row) :
  wf b ->
  wf (add_form lang b row)
  /\ senses (add_form lang b row) = senses b
  /\ concepts (add_form lang b row) = concepts b
  /\ next_concept_id (add_form lang b row) = next_concept_id b.
Proof.
  intros Hwf. destruct row as [[word lemma] pos]. unfold add_form.
  set (b1 := {| forms := forms b ++ [(lang, word, lemma, pos_or_unknown pos)];
                lemmas := lemmas b; concepts := concepts b;
                senses := senses b; next_lemma_id := next_lemma_id b;
                next_concept_id := next_concept_id b |}).
  assert (Hwf1 : wf b1) by exact Hwf.
  destruct (add_lemma_spec (lang, lemma, pos_or_unknown pos) b1 Hwf1)
    as (Hwf' & _ & Hs & Hc & Hn & _).
  repeat split; try apply Hwf'; assumption.
Qed.

Lemma fold_add_form_spec (lang : str) (rows : list langpack_row)
  (b : builder) :
  wf b ->
  wf (fold_left (add_form lang) rows b)
  /\ senses (fold_left (add_form lang) rows b) = senses b
  /\ concepts (fold_left (add_form lang) rows b) = concepts b
  /\ next_concept_id (fold_left (add_form lang) rows b) = next_concept_id b.
Proof.
  revert b. induction rows as [|row rows IH]; intros b Hwf; simpl.
  - repeat split; try apply Hwf; reflexivity.
  - destruct (add_form_spec lang b row Hwf) as (Hwf1 & Hs1 & Hc1 & Hn1).
    destruct (IH _ Hwf1) as (Hwf' & Hs' & Hc' & Hn').
    repeat split; try apply Hwf'; congruence.
Qed.

Lemma extract_spec (langpack : str -> option (list langpack_row))
  (b : builder) :
  wf b ->
  wf (extract_forms_and_lemmas langpack b)
  /\ senses (extract_forms_and_lemmas langpack b) = senses b
  /\ concepts (extract_forms_and_lemmas langpack b) = concepts b
  /\ next_concept_id (extract_forms_and_lemmas langpack b)
     = next_concept_id b.
Proof.
  unfold extract_forms_and_lemmas. generalize LANGUAGES. intros langs.
  revert b. induction langs as [|lang langs IH]; intros b Hwf; simpl.
  - repeat split; try apply Hwf; reflexivity.
  - destruct (langpack lang) as [rows|]; [|apply IH, Hwf].
    destruct (fold_add_form_spec lang rows b Hwf) as (Hwf1 & Hs1 & Hc1 & Hn1).
    destruct (IH _ Hwf1) as (Hwf' & Hs' & Hc' & Hn').
    repeat split; try apply Hwf'; congruence.
Qed.

Lemma init_wf : wf init.
Proof. split; [constructor | intros k i []]. Qed.

(** Every concept of a build comes from a bucket without English items, and
    its senses are the ones planned for that bucket. *)
Lemma build_spec (langpack : str -> option (list langpack_row))
  (translation_dbs : list (option (list (str * str * str * str))))
  (key : str * str) (cid : Z) :
  In (key, cid) (concepts (build langpack translation_dbs)) ->
  wf (build langpack translation_dbs)
  /\ exists english_lemma pos translations,
       bucket_ok translations
       /\ Forall2 (realises (lemmas (build langpack translation_dbs)) cid)
                  (full_plan ((english_lemma, pos), translations))
                  (concept_senses (build langpack translation_dbs) cid).
Proof.
  unfold build, build_concepts_from_translations.
  destruct (extract_spec langpack init init_wf) as (Hwf & Hs & Hc & Hn).
  set (b0 := extract_forms_and_lemmas langpack init) in *.
  set (h := build_hub (build_pos_cache (lemmas b0)) translation_dbs).
  assert (Hok : hub_ok h) by apply build_hub_ok.
  assert (Hold : Forall (fun s => sense_concept s < next_concept_id b0)
                        (senses b0)).
  { rewrite Hs. constructor. }
  destruct (fold_add_concept_spec h b0 Hwf Hold)
    as (Hwf' & _ & _ & _ & Hhigh & Hcon).
  intros Hin. split; [exact Hwf'|].
  destruct (Hcon key cid Hin) as [H|H]; [rewrite Hc in H; destruct H|].
  destruct (Hhigh cid H) as ([[english_lemma pos] translations] & Hb & Hr).
  exists english_lemma, pos, translations. split; [|exact Hr].
  exact (Hok _ _ Hb).
Qed.

End ConceptFacts.

(** ** The concept graph of a build *)

Section GraphFacts.
Import Py Concepts Graph Plan Samples.

Lemma Forall2_filter {A B} (R : A -> B -> Prop) (p : A -> bool)
  (q : B -> bool) (l1 : list A) (l2 : list B) :
  (forall x y, R x y -> p x = q y) ->
  Forall2 R l1 l2 -> Forall2 R (filter p l1) (filter q l2).
Proof.
  intros Hpq. induction 1 as [|x y l1 l2 Hxy _ IH]; simpl; [constructor|].
  rewrite (Hpq x y Hxy). destruct (q y); [constructor; assumption | exact IH].
Qed.

Lemma realises_in_lang (b : builder) (cid : Z) (lang : str) (x : entry)
  (s : Z * Z * Z) :
  realises (lemmas b) cid x s -> entry_in_lang lang x = sense_in_lang b lang s.
Proof.
  intros (_ & _ & Hk). unfold sense_in_lang, entry_in_lang.
  rewrite Hk. reflexivity.
Qed.

(** The senses of one language correspond to the entries of that language. *)
Lemma lang_senses_plan (b : builder) (cid : Z) (lang : str)
  (plan : list entry) :
  Forall2 (realises (lemmas b) cid) plan (concept_senses b cid) ->
  Forall2 (realises (lemmas b) cid)
          (filter (entry_in_lang lang) plan) (lang_senses b cid lang).
Proof.
  intros H. unfold lang_senses. apply Forall2_filter; [|exact H].
  intros x s Hr. eapply realises_in_lang, Hr.
Qed.

Lemma no_english_item (translations : list (lemma_key * Z)) :
  bucket_ok translations ->
  filter (in_lang en) (sorted rank_leb translations) = [].
Proof.
  intros Hok. apply filter_none. apply Forall_forall.
  intros [k n] Hin. apply In_sorted in Hin. apply Hok in Hin.
  unfold in_lang. simpl.
  destruct (str_eq_dec (key_lang k) en); [tauto | reflexivity].
Qed.

Lemma filter_english_entry (lang english_lemma pos : str) :
  filter (entry_in_lang lang) [(1, (en, english_lemma, pos, 0))]
  = if str_eq_dec en lang then [(1, (en, english_lemma, pos, 0))] else [].
Proof.
  cbn [filter]. rewrite entry_in_lang_tuple. cbn [tuple_lang].
  destruct (str_eq_dec en lang); reflexivity.
Qed.

Lemma full_plan_pivot (english_lemma pos : str)
  (translations : list (lemma_key * Z)) :
  bucket_ok translations ->
  filter (entry_in_lang en) (full_plan ((english_lemma, pos), translations))
  = [(1, (en, english_lemma, pos, 0))].
Proof.
  intros Hok. unfold full_plan.
  rewrite filter_app, bucket_plan_lang, no_english_item by exact Hok.
  rewrite filter_english_entry.
  destruct (str_eq_dec en en); [reflexivity | congruence].
Qed.

Lemma full_plan_other (lang english_lemma pos : str)
  (translations : list (lemma_key * Z)) :
  lang <> en ->
  filter (entry_in_lang lang) (full_plan ((english_lemma, pos), translations))
  = enumerate 1
      (firstn 3 (List.map flatten
                   (filter (in_lang lang) (sorted rank_leb translations)))).
Proof.
  intros Hne. unfold full_plan.
  rewrite filter_app, bucket_plan_lang, filter_english_entry.
  destruct (str_eq_dec en lang); [congruence | apply app_nil_r].
Qed.

Lemma length_enumerate {A} (start : Z) (l : list A) :
  List.length (enumerate start l) = List.length l.
Proof.
  revert start. induction l as [|x l IH]; intros start; simpl;
    [reflexivity | rewrite IH; reflexivity].
Qed.

Lemma Forall2_single {A B} (R : A -> B -> Prop) (x : A) (l : list B) :
  Forall2 R [x] l -> exists y, l = [y] /\ R x y.
Proof.
  intros H. inversion H as [|x' y l1 l2 Hxy Hnil]; subst.
  inversion Hnil; subst. exists y. split; [reflexivity | exact Hxy].
Qed.

(** C1: a concept of a build has exactly one sense that links it to an
    English lemma, and that sense has rank 1. *)
Theorem pivot_sense_unique
  (langpack : str -> option (list langpack_row))
  (translation_dbs : list (option (list (str * str * str * str))))
  (key : str * str) (concept_id : Z) :
  In (key, concept_id) (concepts (build langpack translation_dbs)) ->
  exists lemma_id,
    lang_senses (build langpack translation_dbs) concept_id en
    = [(lemma_id, concept_id, 1)].
Proof.
  intros Hin.
  destruct (build_spec langpack translation_dbs key concept_id Hin)
    as (_ & english_lemma & pos & translations & Hok & Hr).
  apply (lang_senses_plan _ _ en) in Hr.
  rewrite full_plan_pivot in Hr by exact Hok.
  apply Forall2_single in Hr. destruct Hr as (s & Hs & Hc & Hrank & _).
  destruct s as [[lemma_id c] r]. simpl in Hc, Hrank.
  exists lemma_id. rewrite Hs, Hc, Hrank. reflexivity.
Qed.

Lemma pivot_sense_unique_witness :
  exists lemma_id, lang_senses sample_builder 1 en = [(lemma_id, 1, 1)].
Proof.
  apply (pivot_sense_unique langpack_es es_en_db (lit "dog", lit "NOUN") 1).
  vm_compute. left. reflexivity.
Defined.

(** C2: a concept of a build has at most three senses that link it to the
    lemmas of one language other than English. *)
Theorem at_most_three_senses_per_language
  (langpack : str -> option (list langpack_row))
  (translation_dbs : list (option (list (str * str * str * str))))
  (key : str * str) (concept_id : Z) (lang : str) :
  In (key, concept_id) (concepts (build langpack translation_dbs)) ->
  lang <> en ->
  (List.length (lang_senses (build langpack translation_dbs) concept_id lang)
   <= 3)%nat.
Proof.
  intros Hin Hne.
  destruct (build_spec langpack translation_dbs key concept_id Hin)
    as (_ & english_lemma & pos & translations & Hok & Hr).
  apply (lang_senses_plan _ _ lang) in Hr.
  rewrite full_plan_other in Hr by exact Hne.
  apply Forall2_length in Hr. rewrite <- Hr. unfold entry.
  rewrite length_enumerate.
  apply firstn_le_length.
Qed.

Lemma at_most_three_senses_per_language_witness :
  (List.length (lang_senses sample_builder 2 (lit "es")) <= 3)%nat.
Proof.
  apply (at_most_three_senses_per_language langpack_es es_en_db
           (lit "dog", lit "UNKNOWN") 2 (lit "es")).
  - vm_compute. right. left. reflexivity.
  - vm_compute. discriminate.
Defined.







End GraphFacts.

(* ===================================================================== *)
(** * Further properties of the builder                                   *)
(* ===================================================================== *)

Section LemmaTable.
Import Py Concepts Graph Plan Numbering.

(** A property of the lemma table and of the next free identifier that
    [add_lemma] keeps is kept by every step of a build. *)
Variable P : list (lemma_key * Z) -> Z -> Prop.
Hypothesis P_add_lemma :
  forall key b, P (lemmas b) (next_lemma_id b) ->
                P (lemmas (add_lemma key b)) (next_lemma_id (add_lemma key b)).

Lemma P_add_form (lang : str) (b : builder) (row : langpack_row) :
  P (lemmas b) (next_lemma_id b) ->
  P (lemmas (add_form lang b row)) (next_lemma_id (add_form lang b row)).
Proof.
  destruct row as [[word lemma] pos]. unfold add_form. intros H.
  apply P_add_lemma. exact H.
Qed.

Lemma P_extract (langpack : str -> option (list langpack_row))
  (b : builder) :
  P (lemmas b) (next_lemma_id b) ->
  P (lemmas (extract_forms_and_lemmas langpack b))
    (next_lemma_id (extract_forms_and_lemmas langpack b)).
Proof.
  unfold extract_forms_and_lemmas. generalize LANGUAGES. intros langs.
  revert b. induction langs as [|lang langs IH]; intros b H; simpl;
    [exact H|].
  apply IH. destruct (langpack lang) as [rows|]; [|exact H].
  revert b H. induction rows as [|row rows IHr]; intros b H; simpl;
    [exact H|].
  apply IHr, P_add_form, H.
Qed.

Lemma P_add_sense (cid : Z) (b : builder) (x : entry) :
  P (lemmas b) (next_lemma_id b) ->
  P (lemmas (add_sense cid b x)) (next_lemma_id (add_sense cid b x)).
Proof.
  destruct x as [rank [[[lang lemma] pos] n]]. unfold add_sense. intros H.
  apply (P_add_lemma (lang, lemma, pos)) in H. exact H.
Qed.

Lemma P_add_concept (b : builder)
  (bucket : (str * str) * list (lemma_key * Z)) :
  P (lemmas b) (next_lemma_id b) ->
  P (lemmas (add_concept b bucket)) (next_lemma_id (add_concept b bucket)).
Proof.
  intros H. rewrite add_concept_plan.
  assert (H1 : P (lemmas (with_concept (fst bucket) b))
                 (next_lemma_id (with_concept (fst bucket) b))) by exact H.
  revert H1. generalize (with_concept (fst bucket) b).
  induction (full_plan bucket) as [|x plan IH]; intros b1 H1; simpl;
    [exact H1|].
  apply IH, P_add_sense, H1.
Qed.

Lemma P_build_concepts
  (translation_dbs : list (option (list (str * str * str * str))))
  (b : builder) :
  P (lemmas b) (next_lemma_id b) ->
  P (lemmas (build_concepts_from_translations translation_dbs b))
    (next_lemma_id (build_concepts_from_translations translation_dbs b)).
Proof.
  unfold build_concepts_from_translations.
  generalize (build_hub (build_pos_cache (lemmas b)) translation_dbs).
  intros h. revert b. induction h as [|bucket h IH]; intros b H; simpl;
    [exact H|].
  apply IH, P_add_concept, H.
Qed.

Lemma P_build (langpack : str -> option (list langpack_row))
  (translation_dbs : list (option (list (str * str * str * str)))) :
  P [] 1 ->
  P (lemmas (build langpack translation_dbs))
    (next_lemma_id (build langpack translation_dbs)).
Proof.
  intros H. unfold build. apply P_build_concepts, P_extract. exact H.
Qed.

End LemmaTable.

Section LemmaIdentifiers.
Import Py Concepts Graph Plan Numbering.

Lemma len_cons {A} (x : A) (l : list A) : len (x :: l) = 1 + len l.
Proof. unfold len. cbn [List.length]. lia. Qed.

Lemma len_nonneg {A} (l : list A) : 0 <= len l.
Proof. unfold len. lia. Qed.

Lemma number_app {K} (start : Z) (l1 l2 : list K) :
  number start (l1 ++ l2) = number start l1 ++ number (start + len l1) l2.
Proof.
  revert start. induction l1 as [|k l1 IH]; intros start.
  - cbn [app number]. replace (start + len (@nil K)) with start
      by (unfold len; simpl; lia). reflexivity.
  - cbn [app number]. rewrite IH, len_cons.
    replace (start + 1 + len l1) with (start + (1 + len l1)) by lia.
    reflexivity.
Qed.

Lemma number_keys {K} (start : Z) (keys : list K) :
  List.map fst (number start keys) = keys.
Proof.
  revert start. induction keys as [|k keys IH]; intros start; simpl;
    [reflexivity | rewrite IH; reflexivity].
Qed.

Lemma number_ids {K} (start : Z) (keys : list K) (k : K) (i : Z) :
  In (k, i) (number start keys) -> start <= i < start + len keys.
Proof.
  revert start. induction keys as [|k' keys IH]; intros start;
    cbn [number In]; [tauto|].
  rewrite len_cons. pose proof (len_nonneg keys).
  intros [[= <- <-]|Hin]; [lia|].
  apply IH in Hin. lia.
Qed.

Lemma number_ids_NoDup {K} (start : Z) (keys : list K) :
  NoDup (List.map snd (number start keys)).
Proof.
  revert start. induction keys as [|k keys IH]; intros start; simpl;
    constructor; [|apply IH].
  intros Hin. apply in_map_iff in Hin. destruct Hin as ([k' i] & Hi & Hin).
  simpl in Hi. subst i. apply number_ids in Hin. lia.
Qed.

Lemma number_covers {K} (start : Z) (keys : list K) (i : Z) :
  start <= i < start + len keys -> exists k, In (k, i) (number start keys).
Proof.
  revert start. induction keys as [|k keys IH]; intros start.
  - unfold len. simpl. lia.
  - rewrite len_cons. cbn [number In]. intros Hi.
    destruct (Z.eq_dec i start) as [->|Hne].
    + exists k. left. reflexivity.
    + destruct (IH (start + 1)) as (k' & Hk'); [lia|].
      exists k'. right. exact Hk'.
Qed.

Lemma len_map {A B} (f : A -> B) (l : list A) : len (List.map f l) = len l.
Proof. unfold len. rewrite length_map. reflexivity. Qed.

Lemma numbered_add_lemma (key : lemma_key) (b : builder) :
  numbered (lemmas b) (next_lemma_id b) ->
  numbered (lemmas (add_lemma key b)) (next_lemma_id (add_lemma key b)).
Proof.
  intros (Hnum & Hnext & Hnd). unfold add_lemma, dict_mem.
  destruct (dict_get key_eq_dec key (lemmas b)) as [i|] eqn:E.
  - repeat split; assumption.
  - simpl. rewrite (dict_set_absent key_eq_dec) by exact E.
    repeat split.
    + rewrite map_app, number_app, <- Hnum. cbn [List.map fst number].
      rewrite len_map. rewrite Hnext. reflexivity.
    + rewrite len_app, len_cons. unfold len in *. cbn [List.length]. lia.
    + rewrite map_app. simpl. apply NoDup_app; [exact Hnd | |].
      * repeat constructor. simpl. tauto.
      * intros k Hk [<-|[]]. exact (dict_get_notin _ _ _ E Hk).
Qed.

Lemma build_lemmas_numbered
  (langpack : str -> option (list langpack_row))
  (translation_dbs : list (option (list (str * str * str * str)))) :
  numbered (lemmas (build langpack translation_dbs))
           (next_lemma_id (build langpack translation_dbs)).
Proof.
  apply (P_build numbered numbered_add_lemma).
  repeat split. constructor.
Qed.

(** The lemmas of a build carry the identifiers 1, 2, ... in the order in
    which their keys were first met, no key is entered twice, and the next
    free identifier is one more than their number. *)
Theorem lemma_identifiers_sequential
  (langpack : str -> option (list langpack_row))
  (translation_dbs : list (option (list (str * str * str * str)))) :
  lemmas (build langpack translation_dbs)
  = number 1 (List.map fst (lemmas (build langpack translation_dbs)))
  /\ next_lemma_id (build langpack translation_dbs)
     = 1 + len (lemmas (build langpack translation_dbs))
  /\ NoDup (List.map fst (lemmas (build langpack translation_dbs))).
Proof. apply build_lemmas_numbered. Qed.

End LemmaIdentifiers.

Section ConceptIdentifiers.
Import Py Concepts Graph Plan Numbering.

Lemma hub_add_keys (pos_cache : list ((str * str) * str)) (h : hub)
  (t : str * str * str) :
  NoDup (List.map fst h) -> NoDup (List.map fst (hub_add pos_cache h t)).
Proof.
  destruct t as [[lemma_from lang_from] translation]. intros H.
  unfold hub_add.
  match goal with
  | |- context [if ?c then _ else _] => destruct c
  end; [exact H | apply NoDup_dict_set, H].
Qed.

Lemma build_hub_keys (pos_cache : list ((str * str) * str))
  (translation_dbs : list (option (list (str * str * str * str)))) :
  NoDup (List.map fst (build_hub pos_cache translation_dbs)).
Proof.
  unfold build_hub.
  assert (H0 : NoDup (List.map fst (@nil ((str * str)
                                          * list (lemma_key * Z)))))
    by constructor.
  revert H0. generalize (@nil ((str * str) * list (lemma_key * Z))).
  induction translation_dbs as [|db dbs IH]; intros h H; simpl; [exact H|].
  apply IH. destruct db as [rows|]; [|exact H].
  revert h H. induction (en_translations rows) as [|t ts IHt]; intros h H;
    simpl; [exact H|].
  apply IHt, hub_add_keys, H.
Qed.

(** The concept table after the loop over a hub with distinct keys, none
    of which is in the table yet. *)
Lemma concepts_fold (h : hub) (b : builder) :
  wf b ->
  NoDup (List.map fst h) ->
  (forall k, In k (List.map fst h) -> ~ In k (List.map fst (concepts b))) ->
  concepts (fold_left add_concept h b)
  = concepts b ++ number (next_concept_id b) (List.map fst h)
  /\ next_concept_id (fold_left add_concept h b)
     = next_concept_id b + len h.
Proof.
  revert b. induction h as [|bucket h IH]; intros b Hwf Hnd Hfresh.
  - simpl. rewrite app_nil_r. unfold len. simpl. split; [reflexivity | lia].
  - change (fold_left add_concept (bucket :: h) b)
      with (fold_left add_concept h (add_concept b bucket)).
    destruct (add_concept_spec b bucket Hwf) as (Hwf1 & _ & Hn1 & Hc1 & _).
    inversion Hnd as [|? ? Hnotin Hnd']; subst.
    assert (Habsent : dict_get pair_eq_dec (fst bucket) (concepts b) = None).
    { apply dict_get_None. apply Hfresh. left. reflexivity. }
    rewrite (dict_set_absent pair_eq_dec) in Hc1 by exact Habsent.
    destruct (IH (add_concept b bucket) Hwf1 Hnd') as (Hc & Hn).
    { intros k Hk. rewrite Hc1, map_app. simpl. intros Hin.
      apply in_app_or in Hin. destruct Hin as [Hin|[<-|[]]].
      - apply (Hfresh k); [right; exact Hk | exact Hin].
      - exact (Hnotin Hk). }
    rewrite Hc, Hn, Hc1, Hn1, <- app_assoc, len_cons. cbn [List.map number app].
    split; [reflexivity | lia].
Qed.

Lemma senses_fold (h : hub) (b : builder) :
  wf b ->
  exists new,
    senses (fold_left add_concept h b) = senses b ++ new
    /\ Forall (fun s => next_concept_id b <= sense_concept s
                        < next_concept_id (fold_left add_concept h b)) new.
Proof.
  revert b. induction h as [|bucket h IH]; intros b Hwf.
  - exists []. simpl. rewrite app_nil_r. split; [reflexivity | constructor].
  - change (fold_left add_concept (bucket :: h) b)
      with (fold_left add_concept h (add_concept b bucket)).
    destruct (add_concept_spec b bucket Hwf)
      as (Hwf1 & _ & Hn1 & _ & new1 & Hs1 & Hr1).
    destruct (IH _ Hwf1) as (new & Hs & Hall).
    exists (new1 ++ new). split.
    + rewrite Hs, Hs1, app_assoc. reflexivity.
    + apply Forall_app. split.
      * apply realises_concept in Hr1.
        eapply Forall_impl; [|exact Hr1]. simpl. intros s ->.
        assert (next_concept_id (add_concept b bucket)
                <= next_concept_id
                     (fold_left add_concept h (add_concept b bucket))).
        { clear -Hwf1. revert Hwf1. generalize (add_concept b bucket).
          induction h as [|bk h IHh]; intros b1 Hwf1; simpl; [lia|].
          destruct (add_concept_spec b1 bk Hwf1) as (Hwf2 & _ & Hn2 & _).
          specialize (IHh _ Hwf2). lia. }
        lia.
      * eapply Forall_impl; [|exact Hall]. simpl. intros s Hs'. lia.
Qed.

Lemma concepts_numbered_by_bucket_aux
  (langpack : str -> option (list langpack_row))
  (translation_dbs : list (option (list (str * str * str * str)))) :
  concepts (build langpack translation_dbs)
  = number 1 (List.map fst (hub_of langpack translation_dbs))
  /\ next_concept_id (build langpack translation_dbs)
     = 1 + len (hub_of langpack translation_dbs).
Proof.
  unfold build, build_concepts_from_translations, hub_of.
  destruct (extract_spec langpack init init_wf) as (Hwf & _ & Hc & Hn).
  set (b0 := extract_forms_and_lemmas langpack init) in *.
  set (h := build_hub (build_pos_cache (lemmas b0)) translation_dbs).
  pose proof (build_hub_keys (build_pos_cache (lemmas b0)) translation_dbs)
    as Hnd. fold h in Hnd.
  destruct (concepts_fold h b0 Hwf Hnd) as (Hcf & Hnf).
  { intros k _. rewrite Hc. simpl. tauto. }
  rewrite Hcf, Hnf, Hc, Hn. simpl. split; reflexivity.
Qed.

(** The concepts of a build are the buckets of the hub, in order, numbered
    from 1; a pair (English lemma, part of speech) heads one bucket only. *)
Theorem concepts_numbered_by_bucket
  (langpack : str -> option (list langpack_row))
  (translation_dbs : list (option (list (str * str * str * str)))) :
  concepts (build langpack translation_dbs)
  = number 1 (List.map fst (hub_of langpack translation_dbs))
  /\ next_concept_id (build langpack translation_dbs)
     = 1 + len (hub_of langpack translation_dbs)
  /\ NoDup (List.map fst (concepts (build langpack translation_dbs))).
Proof.
  destruct (concepts_numbered_by_bucket_aux langpack translation_dbs)
    as (Hc & Hn).
  split; [exact Hc|]. split; [exact Hn|].
  rewrite Hc, number_keys. apply build_hub_keys.
Qed.

End ConceptIdentifiers.

Section SenseFacts.
Import Py Concepts Graph Plan Numbering Samples.

Lemma Forall2_In_r {A B} (R : A -> B -> Prop) (l1 : list A) (l2 : list B)
  (y : B) :
  Forall2 R l1 l2 -> In y l2 -> exists x, In x l1 /\ R x y.
Proof.
  induction 1 as [|x y' l1 l2 Hxy _ IH]; simpl; [tauto|].
  intros [<-|Hin].
  - exists x. split; [left; reflexivity | exact Hxy].
  - destruct (IH Hin) as (x' & Hx' & HR). exists x'. split; [right|]; assumption.
Qed.

Lemma key_of_id_In (i : Z) (k : lemma_key) (d : list (lemma_key * Z)) :
  key_of_id i d = Some k -> In (k, i) d.
Proof.
  induction d as [|[k' i'] d IH]; simpl; [discriminate|].
  destruct (Z.eqb_spec i' i) as [->|Hne].
  - intros [= ->]. left. reflexivity.
  - intros H. right. apply IH, H.
Qed.

Lemma enumerate_ranks {A} (start : Z) (l : list A) (r : Z) (x : A) :
  In (r, x) (enumerate start l) -> start <= r < start + len l.
Proof.
  revert start. induction l as [|y l IH]; intros start; cbn [enumerate In];
    [tauto|].
  rewrite len_cons. pose proof (len_nonneg l).
  intros [[= <- <-]|Hin]; [lia|]. apply IH in Hin. lia.
Qed.

Lemma len_firstn {A} (n : nat) (l : list A) : len (firstn n l) <= Z.of_nat n.
Proof. unfold len. pose proof (firstn_le_length n l). lia. Qed.

Lemma full_plan_ranks (bucket : (str * str) * list (lemma_key * Z))
  (x : entry) :
  In x (full_plan bucket) -> 1 <= fst x <= 3.
Proof.
  destruct bucket as [[english_lemma pos] translations].
  unfold full_plan, bucket_plan. intros Hin. apply in_app_or in Hin.
  destruct Hin as [Hin|[<-|[]]]; [|simpl; lia].
  apply in_flat_map in Hin. destruct Hin as (g & _ & Hin).
  unfold lang_plan in Hin. destruct x as [r e]. apply enumerate_ranks in Hin.
  pose proof (len_firstn 3 (snd g)). simpl. lia.
Qed.

(** Where a sense of a build comes from: an entry of the plan of a bucket
    of the hub, for a concept identifier that was given out. *)
Lemma build_sense_origin (langpack : str -> option (list langpack_row))
  (translation_dbs : list (option (list (str * str * str * str))))
  (s : Z * Z * Z) :
  In s (senses (build langpack translation_dbs)) ->
  1 <= sense_concept s < next_concept_id (build langpack translation_dbs)
  /\ exists bucket x,
       In x (full_plan bucket)
       /\ realises (lemmas (build langpack translation_dbs))
                   (sense_concept s) x s.
Proof.
  unfold build, build_concepts_from_translations.
  destruct (extract_spec langpack init init_wf) as (Hwf & Hs & _ & Hn).
  set (b0 := extract_forms_and_lemmas langpack init) in *.
  set (h := build_hub (build_pos_cache (lemmas b0)) translation_dbs).
  destruct (senses_fold h b0 Hwf) as (new & Hnew & Hall).
  assert (Hold : Forall (fun s => sense_concept s < next_concept_id b0)
                        (senses b0)).
  { rewrite Hs. constructor. }
  destruct (fold_add_concept_spec h b0 Hwf Hold)
    as (_ & _ & _ & _ & Hhigh & _).
  intros Hin. rewrite Hnew, Hs in Hin. simpl in Hin.
  rewrite Forall_forall in Hall. pose proof (Hall s Hin) as Hrange.
  change (next_concept_id b0) with (next_concept_id b0) in Hrange.
  rewrite Hn in Hrange. simpl in Hrange. split; [exact Hrange|].
  destruct (Hhigh (sense_concept s)) as (bucket & _ & Hr);
    [rewrite Hn; simpl; exact Hrange|].
  assert (Hc : In s (concept_senses (fold_left add_concept h b0)
                                    (sense_concept s))).
  { unfold concept_senses. apply filter_In. split.
    - rewrite Hnew, Hs. exact Hin.
    - apply Z.eqb_refl. }
  destruct (Forall2_In_r _ _ _ _ Hr Hc) as (x & Hx & Hreal).
  exists bucket, x. split; assumption.
Qed.

(** Every sense of a build has rank 1, 2 or 3. *)
Theorem sense_ranks_between_1_and_3
  (langpack : str -> option (list langpack_row))
  (translation_dbs : list (option (list (str * str * str * str))))
  (s : Z * Z * Z) :
  In s (senses (build langpack translation_dbs)) ->
  1 <= sense_rank s <= 3.
Proof.
  intros Hin.
  destruct (build_sense_origin langpack translation_dbs s Hin)
    as (_ & bucket & x & Hx & _ & Hrank & _).
  rewrite Hrank. eapply full_plan_ranks, Hx.
Qed.

Lemma sense_ranks_between_1_and_3_witness :
  1 <= sense_rank (4, 2, 1) <= 3.
Proof.
  apply (sense_ranks_between_1_and_3 langpack_es es_en_db (4, 2, 1)).
  vm_compute. right. right. right. left. reflexivity.
Defined.

(** Every sense of a build points to a lemma of the lemma table and to a
    concept of the concept table. *)
Theorem senses_reference_lemmas_and_concepts
  (langpack : str -> option (list langpack_row))
  (translation_dbs : list (option (list (str * str * str * str))))
  (s : Z * Z * Z) :
  In s (senses (build langpack translation_dbs)) ->
  (exists key,
      In (key, sense_lemma_id s) (lemmas (build langpack translation_dbs)))
  /\ (exists hub_key,
         In (hub_key, sense_concept s)
            (concepts (build langpack translation_dbs))).
Proof.
  intros Hin.
  destruct (build_sense_origin langpack translation_dbs s Hin)
    as (Hrange & bucket & x & _ & _ & _ & Hkey).
  split.
  - exists (entry_key x). apply key_of_id_In, Hkey.
  - destruct (concepts_numbered_by_bucket_aux langpack translation_dbs)
      as (Hc & Hn).
    rewrite Hc. apply number_covers. rewrite len_map. lia.
Qed.

Lemma senses_reference_lemmas_and_concepts_witness :
  (exists key, In (key, sense_lemma_id (4, 2, 1)) (lemmas sample_builder))
  /\ (exists hub_key,
         In (hub_key, sense_concept (4, 2, 1)) (concepts sample_builder)).
Proof.
  apply (senses_reference_lemmas_and_concepts langpack_es es_en_db (4, 2, 1)).
  vm_compute. right. right. right. left. reflexivity.
Defined.

End SenseFacts.

(** ** A build loads without an integrity error *)

Section FreshRows.
Import Sqlite.
Context {Row : Type} (conflict : Row -> Row -> bool).

Lemma violates_snoc (r r' : Row) (t : list Row) :
  violates conflict r (t ++ [r']) = violates conflict r t || conflict r r'.
Proof.
  unfold violates. rewrite existsb_app. simpl. rewrite orb_false_r.
  reflexivity.
Qed.

Lemma executemany_insert_fresh (rows t : list Row) :
  (forall r, In r rows -> violates conflict r t = false) ->
  ForallOrdPairs (fun r r' => conflict r' r = false) rows ->
  executemany_insert conflict rows t = Ok (t ++ rows).
Proof.
  revert t. induction rows as [|r rows IH]; intros t Ht Hp; simpl.
  - rewrite app_nil_r. reflexivity.
  - inversion Hp as [|? ? Hhead Hp']; subst.
    unfold insert. rewrite (Ht r) by (left; reflexivity).
    rewrite IH; [rewrite <- app_assoc; reflexivity | | exact Hp'].
    intros r' Hr'. rewrite violates_snoc, (Ht r') by (right; exact Hr').
    rewrite Forall_forall in Hhead. rewrite (Hhead r' Hr'). reflexivity.
Qed.

Lemma executemany_or_ignore_fresh (rows t : list Row) :
  (forall r, In r rows -> violates conflict r t = false) ->
  ForallOrdPairs (fun r r' => conflict r' r = false) rows ->
  executemany_or_ignore conflict rows t = t ++ rows.
Proof.
  unfold executemany_or_ignore.
  revert t. induction rows as [|r rows IH]; intros t Ht Hp; simpl.
  - rewrite app_nil_r. reflexivity.
  - inversion Hp as [|? ? Hhead Hp']; subst.
    unfold insert_or_ignore at 2. rewrite (Ht r) by (left; reflexivity).
    rewrite IH; [rewrite <- app_assoc; reflexivity | | exact Hp'].
    intros r' Hr'. rewrite violates_snoc, (Ht r') by (right; exact Hr').
    rewrite Forall_forall in Hhead. rewrite (Hhead r' Hr'). reflexivity.
Qed.

(** Rows that differ on both keys do not conflict. *)
Lemma distinct_keys_fresh {K1 K2 : Type} (k1 : Row -> K1) (k2 : Row -> K2)
  (rows : list Row) :
  (forall r r', conflict r r' = true -> k1 r = k1 r' \/ k2 r = k2 r') ->
  NoDup (List.map k1 rows) -> NoDup (List.map k2 rows) ->
  ForallOrdPairs (fun r r' => conflict r' r = false) rows.
Proof.
  intros Hc. induction rows as [|r rows IH]; simpl; intros H1 H2;
    constructor.
  - inversion H1 as [|? ? Hn1 _]; inversion H2 as [|? ? Hn2 _]; subst.
    apply Forall_forall. intros r' Hr'.
    destruct (conflict r' r) eqn:E; [|reflexivity].
    destruct (Hc _ _ E) as [He|He]; exfalso.
    + apply Hn1. rewrite <- He. apply in_map, Hr'.
    + apply Hn2. rewrite <- He. apply in_map, Hr'.
  - inversion H1; inversion H2; subst. apply IH; assumption.
Qed.

End FreshRows.

Section DistinctSenses.
Import Py Concepts Graph Plan Numbering.

Lemma insert_sorted_perm {A} (leb : A -> A -> bool) (x : A) (l : list A) :
  Permutation (insert_sorted leb x l) (x :: l).
Proof.
  induction l as [|y l IH]; simpl; [reflexivity|].
  destruct (leb x y); [reflexivity|].
  rewrite IH. apply perm_swap.
Qed.

Lemma sorted_perm {A} (leb : A -> A -> bool) (l : list A) :
  Permutation (sorted leb l) l.
Proof.
  induction l as [|x l IH]; simpl; [reflexivity|].
  rewrite insert_sorted_perm, IH. reflexivity.
Qed.

Lemma NoDup_map_filter {A B} (f : A -> B) (p : A -> bool) (l : list A) :
  NoDup (List.map f l) -> NoDup (List.map f (filter p l)).
Proof.
  induction l as [|x l IH]; simpl; intros H; [constructor|].
  inversion H as [|? ? Hn H']; subst.
  destruct (p x); [|apply IH, H'].
  simpl. constructor; [|apply IH, H'].
  intros Hin. apply Hn. apply in_map_iff in Hin.
  destruct Hin as (y & Hy & Hin). apply filter_In in Hin.
  rewrite <- Hy. apply in_map, Hin.
Qed.

Lemma NoDup_map_firstn {A B} (f : A -> B) (n : nat) (l : list A) :
  NoDup (List.map f l) -> NoDup (List.map f (firstn n l)).
Proof.
  revert n. induction l as [|x l IH]; intros [|n] H; simpl;
    try constructor.
  - inversion H as [|? ? Hn _]; subst. intros Hin. apply Hn.
    apply in_map_iff in Hin. destruct Hin as (y & Hy & Hin).
    rewrite <- Hy. apply in_map.
    rewrite <- (firstn_skipn n l). apply in_or_app. left. exact Hin.
  - inversion H; subst. apply IH. assumption.
Qed.

(** A list has distinct keys as soon as each class of it has. *)
Lemma NoDup_by_class {A B C} (f : A -> B) (cls : A -> C)
  (same : C -> A -> bool) (l : list A) :
  (forall v x, same v x = true <-> cls x = v) ->
  (forall x y, f x = f y -> cls x = cls y) ->
  (forall v, NoDup (List.map f (filter (same v) l))) ->
  NoDup (List.map f l).
Proof.
  intros Hsame Hcls. induction l as [|x l IH]; simpl; intros H;
    constructor.
  - intros Hin. apply in_map_iff in Hin. destruct Hin as (y & Hy & Hin).
    specialize (H (cls x)). simpl in H.
    assert (Hx : same (cls x) x = true) by (apply Hsame; reflexivity).
    rewrite Hx in H. simpl in H. inversion H as [|? ? Hn _]; subst.
    apply Hn. rewrite <- Hy. apply in_map. apply filter_In.
    split; [exact Hin|]. apply Hsame. apply Hcls. exact Hy.
  - apply IH. intros v. specialize (H v). simpl in H.
    destruct (same v x); [|exact H]. inversion H; assumption.
Qed.

Lemma keys_of_enumerate (start : Z) (items : list (lemma_key * Z)) :
  List.map entry_key (enumerate start (List.map flatten items))
  = List.map fst items.
Proof.
  revert start. induction items as [|[[[l m] p] n] items IH]; intros start;
    simpl; [reflexivity|].
  rewrite IH. reflexivity.
Qed.

Lemma entry_in_lang_spec (lang : str) (x : entry) :
  entry_in_lang lang x = true <-> key_lang (entry_key x) = lang.
Proof.
  unfold entry_in_lang.
  destruct (str_eq_dec (key_lang (entry_key x)) lang); split;
    intros; congruence.
Qed.

Lemma bucket_plan_keys (translations : list (lemma_key * Z)) :
  NoDup (List.map fst translations) ->
  NoDup (List.map entry_key (bucket_plan translations)).
Proof.
  intros Hnd.
  apply (NoDup_by_class entry_key (fun x => key_lang (entry_key x))
                        entry_in_lang).
  - intros v x. apply entry_in_lang_spec.
  - intros x y ->. reflexivity.
  - intros v. rewrite bucket_plan_lang, firstn_map, keys_of_enumerate.
    apply NoDup_map_firstn, NoDup_map_filter.
    eapply Permutation_NoDup; [|exact Hnd].
    apply Permutation_map. symmetry. apply sorted_perm.
Qed.

Lemma bucket_plan_origin (translations : list (lemma_key * Z)) (x : entry) :
  In x (bucket_plan translations) ->
  In (entry_key x) (List.map fst translations).
Proof.
  intros Hin.
  assert (Hf : In x (filter (entry_in_lang (key_lang (entry_key x)))
                            (bucket_plan translations))).
  { apply filter_In. split; [exact Hin|].
    apply entry_in_lang_spec. reflexivity. }
  rewrite bucket_plan_lang, firstn_map in Hf.
  apply (in_map entry_key) in Hf. rewrite keys_of_enumerate in Hf.
  apply in_map_iff in Hf. destruct Hf as (y & Hy & Hf).
  rewrite <- Hy. apply in_map.
  apply (In_sorted rank_leb).
  assert (Hg : In y (filter (in_lang (key_lang (entry_key x)))
                            (sorted rank_leb translations))).
  { rewrite <- (firstn_skipn 3 (filter _ _)). apply in_or_app. left.
    exact Hf. }
  apply filter_In in Hg. apply Hg.
Qed.

Lemma full_plan_keys (english_lemma pos : str)
  (translations : list (lemma_key * Z)) :
  bucket_ok translations ->
  NoDup (List.map fst translations) ->
  NoDup (List.map entry_key
                  (full_plan ((english_lemma, pos), translations))).
Proof.
  intros Hok Hnd. unfold full_plan. rewrite map_app.
  apply NoDup_app.
  - apply bucket_plan_keys, Hnd.
  - repeat constructor. simpl. tauto.
  - intros k Hk [<-|[]].
    apply in_map_iff in Hk. destruct Hk as (x & Hx & Hin).
    apply bucket_plan_origin in Hin. rewrite Hx in Hin.
    apply in_map_iff in Hin. destruct Hin as ([k n] & Hkn & Hin).
    simpl in Hkn. subst k. apply Hok in Hin. destruct Hin as [Hlang _].
    apply Hlang. reflexivity.
Qed.

Lemma realised_lemma_ids (d : list (lemma_key * Z)) (cid : Z)
  (plan : list entry) (new : list (Z * Z * Z)) :
  Forall2 (realises d cid) plan new ->
  NoDup (List.map entry_key plan) ->
  NoDup (List.map sense_lemma_id new).
Proof.
  induction 1 as [|x s plan new Hr Hrest IH]; simpl; intros Hnd;
    constructor.
  - inversion Hnd as [|? ? Hn _]; subst. intros Hin. apply Hn.
    apply in_map_iff in Hin. destruct Hin as (s' & Hs' & Hin).
    destruct (Forall2_In_r _ _ _ _ Hrest Hin) as (x' & Hx' & (_ & _ & Hk')).
    destruct Hr as (_ & _ & Hk). rewrite Hs' in Hk'.
    assert (entry_key x' = entry_key x) by congruence.
    rewrite <- H. apply in_map, Hx'.
  - inversion Hnd; subst. apply IH. assumption.
Qed.

Lemma hub_add_distinct (pos_cache : list ((str * str) * str)) (h : hub)
  (t : str * str * str) :
  hub_distinct h -> hub_distinct (hub_add pos_cache h t).
Proof.
  destruct t as [[lemma_from lang_from] translation].
  intros Hd. unfold hub_add.
  set (source_pos := match dict_get pair_eq_dec (lang_from, lemma_from)
                                    pos_cache with
                     | Some p => p
                     | None => UNKNOWN
                     end).
  set (hub_key := (Canon._extract_english_lemma translation, source_pos)).
  set (bucket := match dict_get pair_eq_dec hub_key h with
                 | Some d => d
                 | None => []
                 end).
  assert (Hbucket : NoDup (List.map fst bucket)).
  { subst bucket. destruct (dict_get pair_eq_dec hub_key h) as [d|] eqn:E.
    - apply dict_get_In in E. exact (Hd _ _ E).
    - constructor. }
  destruct (dict_mem key_eq_dec (lang_from, lemma_from, source_pos) bucket);
    [exact Hd|].
  intros hk tr Hin. apply In_dict_set in Hin.
  destruct Hin as [Hin|[_ ->]]; [exact (Hd _ _ Hin)|].
  apply NoDup_dict_set, Hbucket.
Qed.

Lemma build_hub_distinct (pos_cache : list ((str * str) * str))
  (translation_dbs : list (option (list (str * str * str * str)))) :
  hub_distinct (build_hub pos_cache translation_dbs).
Proof.
  unfold build_hub.
  assert (H0 : hub_distinct []) by (intros hk tr []).
  revert H0. generalize (@nil ((str * str) * list (lemma_key * Z))).
  induction translation_dbs as [|db dbs IH]; intros h H; simpl; [exact H|].
  apply IH. destruct db as [rows|]; [|exact H].
  revert h H. induction (en_translations rows) as [|t ts IHt]; intros h H;
    simpl; [exact H|].
  apply IHt, hub_add_distinct, H.
Qed.

(** No two senses of a build link the same lemma to the same concept. *)
Lemma build_sense_keys (langpack : str -> option (list langpack_row))
  (translation_dbs : list (option (list (str * str * str * str)))) :
  NoDup (List.map sense_key (senses (build langpack translation_dbs))).
Proof.
  apply (NoDup_by_class sense_key sense_concept
                        (fun v s => sense_concept s =? v)).
  - intros v s. apply Z.eqb_eq.
  - intros s s' H. unfold sense_key in H. congruence.
  - intros v. fold (concept_senses (build langpack translation_dbs) v).
    unfold build, build_concepts_from_translations.
    destruct (extract_spec langpack init init_wf) as (Hwf & Hs & _ & Hn).
    set (b0 := extract_forms_and_lemmas langpack init) in *.
    set (h := build_hub (build_pos_cache (lemmas b0)) translation_dbs).
    assert (Hok : hub_ok h) by apply build_hub_ok.
    assert (Hd : hub_distinct h) by apply build_hub_distinct.
    destruct (senses_fold h b0 Hwf) as (new & Hnew & Hall).
    assert (Hold : Forall (fun s => sense_concept s < next_concept_id b0)
                          (senses b0)).
    { rewrite Hs. constructor. }
    destruct (fold_add_concept_spec h b0 Hwf Hold)
      as (_ & _ & _ & _ & Hhigh & _).
    set (bf := fold_left add_concept h b0) in *.
    destruct (Z_lt_ge_dec v (next_concept_id b0)) as [Hlt|Hge];
      [|destruct (Z_lt_ge_dec v (next_concept_id bf)) as [Hlt'|Hge']].
    + unfold concept_senses. rewrite Hnew, Hs. simpl.
      rewrite filter_concept_other; [constructor|].
      eapply Forall_impl; [|exact Hall]. simpl. intros s Hrange. lia.
    + destruct (Hhigh v) as ([[english_lemma pos] translations] & Hin & Hr);
        [lia|].
      apply (NoDup_map_inv fst). rewrite map_map.
      change (fun x : Z * Z * Z => fst (sense_key x)) with sense_lemma_id.
      eapply realised_lemma_ids; [exact Hr|].
      apply full_plan_keys; [exact (Hok _ _ Hin) | exact (Hd _ _ Hin)].
    + unfold concept_senses. rewrite Hnew, Hs. simpl.
      rewrite filter_concept_other; [constructor|].
      eapply Forall_impl; [|exact Hall]. simpl. intros s Hrange. lia.
Qed.

End DistinctSenses.

Section SuccessfulBuild.
Import Py Sqlite Concepts Graph Plan Numbering Samples.

Lemma lemma_conflict_keys (r r' : lemma_row) :
  lemma_conflict r r' = true ->
  fst (fst (fst (fst r))) = fst (fst (fst (fst r')))
  \/ (fun x : lemma_row => let '(_, lang, lemma, pos, _) := x in
                           (lang, lemma, pos)) r
     = (fun x : lemma_row => let '(_, lang, lemma, pos, _) := x in
                             (lang, lemma, pos)) r'.
Proof.
  destruct r as [[[[i l] m] p] f], r' as [[[[i' l'] m'] p'] f'].
  unfold lemma_conflict. cbn [fst snd]. intros H.
  apply orb_true_iff in H. destruct H as [H|H].
  - left. apply Z.eqb_eq, H.
  - destruct (key_eq_dec (l, m, p) (l', m', p')) as [E|E];
      [right; exact E | discriminate H].
Qed.

Lemma concept_conflict_keys (r r' : concept_row) :
  concept_conflict r r' = true -> fst (fst r) = fst (fst r').
Proof.
  destruct r as [[i p] g], r' as [[i' p'] g']. unfold concept_conflict.
  simpl. apply Z.eqb_eq.
Qed.

Lemma sense_conflict_keys (r r' : sense_row) :
  sense_conflict r r' = true -> sense_key r = sense_key r'.
Proof.
  destruct r as [[i c] k], r' as [[i' c'] k']. unfold sense_conflict.
  rewrite andb_true_iff, !Z.eqb_eq. unfold sense_key. simpl.
  intros [-> ->]. reflexivity.
Qed.

(** A build is stored without an integrity error: when the storage does
    not fail, [create_concepts_db] returns, and the output location then
    holds one lemma row per lemma, one concept row per concept and every
    sense of the build, whatever it held before. *)
Theorem build_is_stored_whole
  (langpack : str -> option (list langpack_row))
  (translation_dbs : list (option (list (str * str * str * str))))
  (output_path : option db) :
  create_concepts_db (build langpack translation_dbs) (fun _ => false)
                     output_path
  = (Some (committed (build langpack translation_dbs)), Ok tt).
Proof.
  rewrite create_concepts_db_outcome.
  destruct (build_lemmas_numbered langpack translation_dbs)
    as (Hnum & _ & Hkeys).
  destruct (concepts_numbered_by_bucket_aux langpack translation_dbs)
    as (Hcon & _).
  pose proof (build_sense_keys langpack translation_dbs) as Hsenses.
  set (b := build langpack translation_dbs) in *.
  unfold transaction, guard, bind, committed. simpl.
  rewrite (executemany_insert_fresh lemma_conflict (lemma_rows b) []).
  - rewrite (executemany_insert_fresh concept_conflict (concept_rows b) []).
    + rewrite (executemany_or_ignore_fresh sense_conflict (senses b) []).
      * reflexivity.
      * intros r _. reflexivity.
      * apply (distinct_keys_fresh sense_conflict sense_key sense_key);
          [intros r r' H; left; apply sense_conflict_keys, H | |];
          exact Hsenses.
    + intros r _. reflexivity.
    + apply (distinct_keys_fresh concept_conflict
               (fun r : concept_row => fst (fst r))
               (fun r : concept_row => fst (fst r)));
        [intros r r' H; left; apply concept_conflict_keys, H | |];
        unfold concept_rows; rewrite map_map;
        (erewrite map_ext;
         [rewrite Hcon; apply (number_ids_NoDup 1)
         |intros [[g p] i]; reflexivity]).
  - intros r _. reflexivity.
  - apply (distinct_keys_fresh lemma_conflict _ _ _ lemma_conflict_keys).
    + unfold lemma_rows. rewrite map_map.
      erewrite map_ext;
        [rewrite Hnum; apply (number_ids_NoDup 1)
        |intros [[[l m] p] i]; reflexivity].
    + unfold lemma_rows. rewrite map_map.
      erewrite map_ext; [exact Hkeys | intros [[[l m] p] i]; reflexivity].
Qed.

End SuccessfulBuild.

(** ** Forms, the POS cache and the rows that the clustering reads *)

Section FormsAndCache.
Import Py Sqlite Concepts Graph Plan Numbering Samples.

Lemma forms_add_lemma (key : lemma_key) (b : builder) :
  forms (add_lemma key b) = forms b.
Proof. unfold add_lemma. destruct (dict_mem _ _ _); reflexivity. Qed.

Lemma forms_add_sense (cid : Z) (b : builder) (x : entry) :
  forms (add_sense cid b x) = forms b.
Proof.
  destruct x as [rank [[[lang lemma] pos] n]]. unfold add_sense. simpl.
  apply forms_add_lemma.
Qed.

Lemma forms_add_concept (b : builder)
  (bucket : (str * str) * list (lemma_key * Z)) :
  forms (add_concept b bucket) = forms b.
Proof.
  rewrite add_concept_plan.
  change (forms b) with (forms (with_concept (fst bucket) b)).
  generalize (with_concept (fst bucket) b).
  induction (full_plan bucket) as [|x plan IH]; intros b1; simpl;
    [reflexivity|].
  rewrite IH. apply forms_add_sense.
Qed.

Lemma forms_build_concepts
  (translation_dbs : list (option (list (str * str * str * str))))
  (b : builder) :
  forms (build_concepts_from_translations translation_dbs b) = forms b.
Proof.
  unfold build_concepts_from_translations.
  generalize (build_hub (build_pos_cache (lemmas b)) translation_dbs).
  intros h. revert b. induction h as [|bucket h IH]; intros b; simpl;
    [reflexivity|].
  rewrite IH. apply forms_add_concept.
Qed.

Lemma known_add_lemma (k key : lemma_key) (b : builder) :
  dict_get key_eq_dec k (lemmas b) <> None ->
  dict_get key_eq_dec k (lemmas (add_lemma key b)) <> None.
Proof.
  unfold add_lemma. destruct (dict_mem _ _ _); [tauto|]. simpl.
  rewrite dict_get_set. destruct (key_eq_dec k key); [discriminate | tauto].
Qed.

Lemma add_lemma_known (key : lemma_key) (b : builder) :
  dict_get key_eq_dec key (lemmas (add_lemma key b)) <> None.
Proof.
  unfold add_lemma, dict_mem.
  destruct (dict_get key_eq_dec key (lemmas b)) eqn:E.
  - rewrite E. discriminate.
  - simpl. rewrite dict_get_set.
    destruct (key_eq_dec key key); [discriminate | congruence].
Qed.

Lemma forms_known_add_form (lang : str) (b : builder) (row : langpack_row) :
  Forall (form_known (lemmas b)) (forms b) ->
  Forall (form_known (lemmas (add_form lang b row)))
         (forms (add_form lang b row)).
Proof.
  destruct row as [[word lemma] pos]. unfold add_form. intros H.
  rewrite forms_add_lemma. simpl. apply Forall_app. split.
  - eapply Forall_impl; [|exact H]. intros [[[l f] m] p] Hf.
    apply (known_add_lemma (l, m, p)). exact Hf.
  - constructor; [|constructor]. apply add_lemma_known.
Qed.

Lemma forms_known_extract (langpack : str -> option (list langpack_row))
  (b : builder) :
  Forall (form_known (lemmas b)) (forms b) ->
  Forall (form_known (lemmas (extract_forms_and_lemmas langpack b)))
         (forms (extract_forms_and_lemmas langpack b)).
Proof.
  unfold extract_forms_and_lemmas. generalize LANGUAGES. intros langs.
  revert b. induction langs as [|lang langs IH]; intros b H; simpl;
    [exact H|].
  apply IH. destruct (langpack lang) as [rows|]; [|exact H].
  revert b H. induction rows as [|row rows IHr]; intros b H; simpl;
    [exact H|].
  apply IHr, forms_known_add_form, H.
Qed.

Lemma form_rows_all (b : builder) :
  Forall (form_known (lemmas b)) (forms b) ->
  form_rows b = List.map (form_row_of b) (forms b).
Proof.
  unfold form_rows. induction (forms b) as [|[[[l f] m] p] fs IH];
    intros H; simpl; [reflexivity|].
  inversion H as [|? ? Hf H']; subst. rewrite IH by exact H'.
  unfold form_known in Hf. unfold lemma_id.
  destruct (dict_get key_eq_dec (l, m, p) (lemmas b)); [reflexivity|].
  congruence.
Qed.

(** The clustering leaves the forms of the langpacks as they are and every
    form finds its lemma: one row of the table [forms] is prepared for each
    form, with the identifier of its lemma. *)
Theorem every_form_gets_a_row
  (langpack : str -> option (list langpack_row))
  (translation_dbs : list (option (list (str * str * str * str)))) :
  forms (build langpack translation_dbs)
  = forms (extract_forms_and_lemmas langpack init)
  /\ form_rows (build langpack translation_dbs)
     = List.map (form_row_of (build langpack translation_dbs))
                (forms (build langpack translation_dbs)).
Proof.
  split; [apply forms_build_concepts|].
  apply form_rows_all. unfold build. rewrite forms_build_concepts.
  pose proof (forms_known_extract langpack init (Forall_nil _)) as H.
  eapply Forall_impl; [|exact H]. intros [[[l f] m] p] Hf.
  apply (P_build_concepts
           (fun d _ => dict_get key_eq_dec (l, m, p) d <> None)).
  - intros key b. apply known_add_lemma.
  - exact Hf.
Qed.

(** The POS cache gives, for a language and a base form, the part of speech
    of the first lemma of the table with that language and base form, and
    nothing when there is none. *)
Theorem pos_cache_first_wins (lang lemma : str)
  (d : list (lemma_key * Z)) :
  dict_get pair_eq_dec (lang, lemma) (build_pos_cache d)
  = first_pos lang lemma d.
Proof.
  unfold build_pos_cache.
  assert (H : forall acc,
             dict_get pair_eq_dec (lang, lemma)
               (fold_left
                  (fun pos_cache (entry : lemma_key * Z) =>
                     let '((lang, lemma, pos), _) := entry in
                     let cache_key := (lang, lemma) in
                     if dict_mem pair_eq_dec cache_key pos_cache
                     then pos_cache
                     else dict_set pair_eq_dec cache_key pos pos_cache)
                  d acc)
             = match dict_get pair_eq_dec (lang, lemma) acc with
               | Some p => Some p
               | None => first_pos lang lemma d
               end).
  { induction d as [|[[[l m] p] i] d IH]; intros acc;
      cbn [fold_left first_pos].
    - destruct (dict_get pair_eq_dec (lang, lemma) acc); reflexivity.
    - rewrite IH. unfold dict_mem.
      destruct (dict_get pair_eq_dec (l, m) acc) as [q|] eqn:E.
      + destruct (dict_get pair_eq_dec (lang, lemma) acc) eqn:E';
          [reflexivity|].
        destruct (pair_eq_dec (lang, lemma) (l, m)) as [Heq|Hne];
          [congruence | reflexivity].
      + rewrite dict_get_set.
        destruct (pair_eq_dec (lang, lemma) (l, m)) as [Heq|Hne].
        * rewrite Heq, E. reflexivity.
        * reflexivity. }
  apply (H []).
Qed.

Lemma en_translations_cons (row : str * str * str * str)
  (rows : list (str * str * str * str)) :
  en_translations (row :: rows)
  = en_translations [row] ++ en_translations rows.
Proof.
  unfold en_translations. cbn [flat_map]. rewrite app_nil_r. reflexivity.
Qed.

Lemma en_translations_skipped (row : str * str * str * str) :
  to_english row = false -> en_translations [row] = [].
Proof.
  destruct row as [[[l f] t] o]. unfold to_english, en_translations.
  cbn [flat_map]. rewrite app_nil_r.
  destruct (str_eq_dec o en); [|reflexivity].
  destruct (str_eq_dec f en); [reflexivity | discriminate].
Qed.

Lemma en_translations_filter (rows : list (str * str * str * str)) :
  en_translations (filter to_english rows) = en_translations rows.
Proof.
  induction rows as [|row rows IH]; [reflexivity|].
  cbn [filter]. rewrite (en_translations_cons row rows).
  destruct (to_english row) eqn:E.
  - rewrite en_translations_cons, IH. reflexivity.
  - rewrite en_translations_skipped by exact E. exact IH.
Qed.

(** The rows of a translation database that do not go from another
    language to English have no effect on a build. *)
Theorem only_rows_to_english_count
  (langpack : str -> option (list langpack_row))
  (translation_dbs : list (option (list (str * str * str * str)))) :
  build langpack (List.map only_to_english translation_dbs)
  = build langpack translation_dbs.
Proof.
  unfold build, build_concepts_from_translations. f_equal.
  unfold build_hub.
  generalize (@nil ((str * str) * list (lemma_key * Z))).
  induction translation_dbs as [|db dbs IH]; intros h; simpl; [reflexivity|].
  rewrite IH. destruct db as [rows|]; simpl; [|reflexivity].
  rewrite en_translations_filter. reflexivity.
Qed.

End FormsAndCache.

(** ** Translations seen before *)

Section SeenBefore.
Import Py Concepts Graph Plan Numbering Samples.

Lemma hub_add_eq (pos_cache : list ((str * str) * str)) (h : hub)
  (t : str * str * str) :
  hub_add pos_cache h t
  = if dict_mem key_eq_dec (source_key_of pos_cache t)
                (bucket_at h (hub_key_of pos_cache t))
    then h
    else dict_set pair_eq_dec (hub_key_of pos_cache t)
           (dict_set key_eq_dec (source_key_of pos_cache t)
                     (len (fst (fst t)))
                     (bucket_at h (hub_key_of pos_cache t)))
           h.
Proof. destruct t as [[lemma_from lang_from] translation]. reflexivity. Qed.

Lemma bucket_at_set (h : hub) (k k0 : str * str)
  (v : list (lemma_key * Z)) :
  bucket_at (dict_set pair_eq_dec k0 v h) k
  = if pair_eq_dec k k0 then v else bucket_at h k.
Proof.
  unfold bucket_at. rewrite dict_get_set.
  destruct (pair_eq_dec k k0); reflexivity.
Qed.

Lemma dict_mem_set (k k0 : lemma_key) (v : Z) (d : list (lemma_key * Z)) :
  dict_mem key_eq_dec k (dict_set key_eq_dec k0 v d)
  = if key_eq_dec k k0 then true else dict_mem key_eq_dec k d.
Proof.
  unfold dict_mem. rewrite dict_get_set.
  destruct (key_eq_dec k k0); reflexivity.
Qed.

Lemma hub_add_entered (pos_cache : list ((str * str) * str)) (h : hub)
  (t : str * str * str) :
  entered pos_cache (hub_add pos_cache h t) t.
Proof.
  unfold entered. rewrite hub_add_eq.
  destruct (dict_mem key_eq_dec (source_key_of pos_cache t)
                     (bucket_at h (hub_key_of pos_cache t))) eqn:E;
    [exact E|].
  rewrite bucket_at_set.
  destruct (pair_eq_dec (hub_key_of pos_cache t) (hub_key_of pos_cache t));
    [|congruence].
  rewrite dict_mem_set.
  destruct (key_eq_dec (source_key_of pos_cache t)
                       (source_key_of pos_cache t)); [reflexivity|congruence].
Qed.

Lemma entered_stays (pos_cache : list ((str * str) * str)) (h : hub)
  (t t' : str * str * str) :
  entered pos_cache h t -> entered pos_cache (hub_add pos_cache h t') t.
Proof.
  unfold entered. intros H. rewrite hub_add_eq.
  destruct (dict_mem key_eq_dec (source_key_of pos_cache t')
                     (bucket_at h (hub_key_of pos_cache t'))); [exact H|].
  rewrite bucket_at_set.
  destruct (pair_eq_dec (hub_key_of pos_cache t) (hub_key_of pos_cache t'))
    as [Heq|Hne]; [|exact H].
  rewrite dict_mem_set, <- Heq, H.
  destruct (key_eq_dec _ _); reflexivity.
Qed.

Lemma hub_add_of_entered (pos_cache : list ((str * str) * str)) (h : hub)
  (t : str * str * str) :
  entered pos_cache h t -> hub_add pos_cache h t = h.
Proof. unfold entered. intros H. rewrite hub_add_eq, H. reflexivity. Qed.

Lemma fold_entered_stays (pos_cache : list ((str * str) * str))
  (ts : list (str * str * str)) (h : hub) (t : str * str * str) :
  entered pos_cache h t ->
  entered pos_cache (fold_left (hub_add pos_cache) ts h) t.
Proof.
  revert h. induction ts as [|t' ts IH]; intros h H; simpl; [exact H|].
  apply IH, entered_stays, H.
Qed.

Lemma fold_enters (pos_cache : list ((str * str) * str))
  (ts : list (str * str * str)) (h : hub) (t : str * str * str) :
  In t ts -> entered pos_cache (fold_left (hub_add pos_cache) ts h) t.
Proof.
  revert h. induction ts as [|t' ts IH]; intros h; simpl; [tauto|].
  intros [->|Hin]; [|apply IH, Hin].
  apply fold_entered_stays, hub_add_entered.
Qed.

Lemma fold_of_entered (pos_cache : list ((str * str) * str))
  (ts : list (str * str * str)) (h : hub) :
  (forall t, In t ts -> entered pos_cache h t) ->
  fold_left (hub_add pos_cache) ts h = h.
Proof.
  induction ts as [|t ts IH]; intros H; simpl; [reflexivity|].
  rewrite hub_add_of_entered by (apply H; left; reflexivity).
  apply IH. intros t' Ht'. apply H. right. exact Ht'.
Qed.

Lemma build_hub_flat (pos_cache : list ((str * str) * str))
  (translation_dbs : list (option (list (str * str * str * str)))) :
  build_hub pos_cache translation_dbs
  = fold_left (hub_add pos_cache) (all_en_translations translation_dbs) [].
Proof.
  unfold build_hub, all_en_translations.
  generalize (@nil ((str * str) * list (lemma_key * Z))).
  induction translation_dbs as [|db dbs IH]; intros h; simpl; [reflexivity|].
  rewrite fold_left_app, IH. destruct db; reflexivity.
Qed.

Lemma all_en_translations_app
  (dbs1 dbs2 : list (option (list (str * str * str * str)))) :
  all_en_translations (dbs1 ++ dbs2)
  = all_en_translations dbs1 ++ all_en_translations dbs2.
Proof. unfold all_en_translations. apply flat_map_app. Qed.

(** Translation databases whose rows to English were all read before add
    nothing to a build: a translation that is already entered is skipped. *)
Theorem repeated_translations_add_nothing
  (langpack : str -> option (list langpack_row))
  (dbs1 dbs2 : list (option (list (str * str * str * str)))) :
  incl (all_en_translations dbs2) (all_en_translations dbs1) ->
  build langpack (dbs1 ++ dbs2) = build langpack dbs1.
Proof.
  intros Hincl. unfold build, build_concepts_from_translations. f_equal.
  rewrite !build_hub_flat, all_en_translations_app, fold_left_app.
  apply fold_of_entered. intros t Ht. apply fold_enters, Hincl, Ht.
Qed.

Lemma repeated_translations_add_nothing_witness :
  build langpack_es (es_en_db ++ es_en_db) = build langpack_es es_en_db.
Proof.
  apply (repeated_translations_add_nothing langpack_es es_en_db es_en_db).
  intros t Ht. exact Ht.
Defined.

End SeenBefore.

(** ** More on direction augmentation *)

Section AugmentationMore.
Import Py Bidirectional Direction Samples.

(** The order in which the two directions are given does not matter:
    swapping the arguments swaps the results. *)
Theorem augment_symmetric (t1 t2 : list record) :
  augment t2 t1 = (snd (augment t1 t2), fst (augment t1 t2)).
Proof.
  unfold augment, SPARSE_THRESHOLD, RICH_THRESHOLD.
  destruct (Z.ltb_spec (len t1) 10000); destruct (Z.gtb_spec (len t2) 100000);
    destruct (Z.ltb_spec (len t2) 10000);
    destruct (Z.gtb_spec (len t1) 100000);
    simpl; try reflexivity; lia.
Qed.

Lemma app_same_nil {A} (l l' : list A) : l ++ l' = l -> l' = [].
Proof.
  intros H. apply (app_inv_head l). rewrite app_nil_r. exact H.
Qed.

Lemma len_nil_iff (t : list record) : reverse_translations t = [] -> len t = 0.
Proof. destruct t; [reflexivity | discriminate]. Qed.

(** Nothing is augmented exactly when neither direction is below 10,000
    records while the other is above 100,000; the bounds themselves count
    as neither sparse nor rich. *)
Theorem augment_changes_nothing_iff (t1 t2 : list record) :
  augment t1 t2 = (t1, t2) <->
  (10000 <= len t1 \/ len t2 <= 100000)
  /\ (10000 <= len t2 \/ len t1 <= 100000).
Proof.
  unfold augment, SPARSE_THRESHOLD, RICH_THRESHOLD.
  destruct (Z.ltb_spec (len t1) 10000); destruct (Z.gtb_spec (len t2) 100000);
    destruct (Z.ltb_spec (len t2) 10000);
    destruct (Z.gtb_spec (len t1) 100000);
    simpl; split; try lia; try (intros _; reflexivity); intros [= E];
    apply app_same_nil, len_nil_iff in E; lia.
Qed.

Lemma augment_changes_nothing_iff_witness :
  augment (records 10000) (records 100000)
  = (records 10000, records 100000).
Proof.
  apply (augment_changes_nothing_iff (records 10000) (records 100000)).
  rewrite !len_records. lia.
Defined.




End AugmentationMore.

(** ** More on the canonicalizer *)

Section CanonMore.
Import Py Canon Direction Samples.


(** A text without the infinitive marker, a parenthesis or a separator is
    only lower-cased and trimmed. *)
Theorem canonicalizer_on_plain_text (s : str) :
  plain s -> _extract_english_lemma s = strip (lower s).
Proof.
  intros (Hto & Hparen & Hcomma & Hsemi & Hslash).
  unfold _extract_english_lemma. cbv zeta. rewrite Hto, Hparen.
  rewrite jargon_loop_no_comma by exact Hcomma.
  rewrite sep_loop_none; [reflexivity|].
  unfold separators. intros c [<-|[<-|[<-|[]]]]; assumption.
Qed.

Lemma canonicalizer_on_plain_text_witness :
  _extract_english_lemma (lit " Run ") = strip (lower (lit " Run ")).
Proof.
  apply (canonicalizer_on_plain_text (lit " Run ")).
  repeat split; vm_compute; reflexivity.
Defined.

End CanonMore.

(** ** The two inflection predicates *)

Section ClassifierRelation.
Import Py Re Samples.

Lemma any_in_incl (ps qs : list str) (s : str) :
  incl ps qs -> any_in ps s = true -> any_in qs s = true.
Proof.
  unfold any_in. rewrite !existsb_exists.
  intros Hincl (p & Hp & Hc). exists p. split; [apply Hincl, Hp | exact Hc].
Qed.

Lemma keywords_incl :
  incl Translations.inflection_keywords Bidirectional.inflection_keywords.
Proof.
  intros k Hk. unfold Translations.inflection_keywords in Hk.
  unfold Bidirectional.inflection_keywords.
  cbn [List.map In] in *.
  repeat (destruct Hk as [<-|Hk]; [tauto|]). destruct Hk.
Qed.

(** A gloss that build_translations.py takes for an inflection reference
    is one for build_translations_bidirectional.py too: its keyword table
    holds the keywords of the other, and its regular expressions the
    others'. *)
Theorem bidirectional_inflection_is_stricter (gloss : str) :
  Translations.is_inflected_form_definition gloss = true ->
  Bidirectional.is_inflected_form_definition gloss = true.
Proof.
  unfold Translations.is_inflected_form_definition,
    Bidirectional.is_inflected_form_definition.
  cbv zeta.
  fold Bidirectional.specific_form_patterns.
  fold Bidirectional.inflection_patterns.
  destruct (any_in Translations.inflection_keywords (lower gloss)) eqn:E.
  - rewrite (any_in_incl _ _ _ keywords_incl E). reflexivity.
  - intros H.
    destruct (any_in Bidirectional.inflection_keywords (lower gloss));
      [reflexivity|].
    destruct (any_search Bidirectional.specific_form_patterns (lower gloss));
      [reflexivity|].
    destruct (any_search Bidirectional.inflection_patterns (lower gloss));
      [reflexivity | discriminate].
Qed.

Lemma bidirectional_inflection_is_stricter_witness :
  Bidirectional.is_inflected_form_definition gloss_conjugation = true.
Proof.
  apply (bidirectional_inflection_is_stricter gloss_conjugation).
  vm_compute. reflexivity.
Defined.

End ClassifierRelation.

(** ** [extract_translations] of build_translations.py *)

Section ExtractFacts.
Import Py Kaikki TranslationDb.

Lemma len_nil {A} : len (@nil A) = 0.
Proof. reflexivity. Qed.







End ExtractFacts.

Section ExtractSingleFacts.
Import Py Kaikki TranslationDb ExtractSingle.



Lemma single_gloss_loop_bound (w lang_from lang_to : str)
  (names : list (option str)) (gs : list (option str)) (n : Z) :
  0 <= n <= 2 ->
  len (gloss_loop w lang_from lang_to names gs n) <= 3 - n.
Proof.
  revert n. induction gs as [|[gloss|] gs IH]; intros n Hn;
    cbn [gloss_loop]; [unfold len; cbn [List.length]; lia | | apply IH, Hn].
  destruct (empty gloss); [apply IH, Hn|].
  destruct (Translations.is_technical_definition gloss (Some names));
    [apply IH, Hn|].
  cbv zeta.
  destruct (negb (empty (clean gloss)) && negb (str_eqb (clean gloss) w));
    [|apply IH, Hn].
  rewrite len_cons.
  destruct (Z.geb_spec (n + 1) 3) as [Hge|Hlt].
  - unfold len; cbn [List.length]; lia.
  - specialize (IH (n + 1)). lia.
Qed.

Lemma len_flat_map_bound {A B} (f : A -> list B) (l : list A) (c : Z) :
  (forall x, In x l -> len (f x) <= c) ->
  len (flat_map f l) <= c * len l.
Proof.
  induction l as [|x l IH]; intros H; cbn [flat_map].
  - unfold len; cbn [List.length]; lia.
  - rewrite len_app, len_cons.
    specialize (H x (or_introl eq_refl)) as Hx.
    assert (len (flat_map f l) <= c * len l)
      by (apply IH; intros y Hy; apply H; right; exact Hy).
    lia.
Qed.

(** build_translations.py takes at most three glosses of a sense: the
    records are at most three times the senses of the file. *)
Theorem single_at_most_three_per_sense (lines : list (option entry))
  (lang_from lang_to : str) :
  len (extract_translations lines lang_from lang_to)
  <= 3 * total_senses lines.
Proof.
  unfold extract_translations, total_senses.
  induction lines as [|line lines IH]; cbn [flat_map].
  - unfold len; cbn [List.length]; lia.
  - rewrite !len_app.
    assert (H : len (line_records lang_from lang_to line)
                <= 3 * len (match line with
                            | Some e => senses e
                            | None => []
                            end)).
    { destruct line as [e|]; cbn [line_records];
        [|unfold len; cbn [List.length]; lia]. cbv zeta.
      pose proof (len_nonneg (senses e)).
      destruct (empty (clean (word e))); [unfold len; cbn [List.length]; lia|].
      destruct (len (clean (word e)) =? 1); [unfold len; cbn [List.length]; lia|].
      apply len_flat_map_bound. intros s _. unfold sense_records.
      destruct (any_inflected (glosses s)); [unfold len; cbn [List.length]; lia|].
      pose proof (single_gloss_loop_bound (clean (word e)) lang_from lang_to
                    (category_names s) (glosses s) 0).
      lia. }
    lia.
Qed.

Lemma single_gloss_loop_origin (w lang_from lang_to : str)
  (names : list (option str)) (gs : list (option str)) (n : Z)
  (r : record) :
  In r (gloss_loop w lang_from lang_to names gs n) ->
  exists gloss,
    In (Some gloss) gs
    /\ r = (w, lang_from, clean gloss, lang_to)
    /\ Translations.is_technical_definition gloss (Some names) = false.
Proof.
  revert n. induction gs as [|[gloss|] gs IH]; intros n;
    cbn [gloss_loop]; [intros [] | |].
  - assert (Hrest : forall m,
               In r (gloss_loop w lang_from lang_to names gs m) ->
               exists g, In (Some g) (Some gloss :: gs)
                         /\ r = (w, lang_from, clean g, lang_to)
                         /\ Translations.is_technical_definition
                              g (Some names) = false).
    { intros m Hm. destruct (IH m Hm) as (g & Hg & Hr).
      exists g. split; [right; exact Hg | exact Hr]. }
    destruct (empty gloss); [apply Hrest|].
    destruct (Translations.is_technical_definition gloss (Some names))
      eqn:Et; [apply Hrest|].
    cbv zeta.
    destruct (negb (empty (clean gloss)) && negb (str_eqb (clean gloss) w));
      [|apply Hrest].
    intros [<-|Hin].
    + exists gloss. split; [left; reflexivity|]. split; [reflexivity|exact Et].
    + destruct (n + 1 >=? 3); [destruct Hin | eapply Hrest, Hin].
  - intros Hin. destruct (IH n Hin) as (g & Hg & Hr).
    exists g. split; [right; exact Hg | exact Hr].
Qed.

(** A record of build_translations.py comes from a gloss that is not
    technical, in a sense none of whose glosses is an inflection
    reference, of an entry of the file. *)
Theorem single_records_come_from_genuine_glosses
  (lines : list (option entry)) (lang_from lang_to : str) (r : record) :
  In r (extract_translations lines lang_from lang_to) ->
  exists e s gloss,
    In (Some e) lines /\ In s (senses e) /\ In (Some gloss) (glosses s)
    /\ r = (clean (word e), lang_from, clean gloss, lang_to)
    /\ Translations.is_technical_definition gloss (Some (category_names s))
       = false
    /\ Forall (fun g => match g with
                        | Some g' =>
                            Translations.is_inflected_form_definition g'
                            = false
                        | None => True
                        end)
              (glosses s).
Proof.
  unfold extract_translations. intros Hin. apply in_flat_map in Hin.
  destruct Hin as ([e|] & Hline & Hin); cbn [line_records] in Hin;
    [|destruct Hin]. cbv zeta in Hin.
  destruct (empty (clean (word e))); [destruct Hin|].
  destruct (len (clean (word e)) =? 1); [destruct Hin|].
  apply in_flat_map in Hin. destruct Hin as (s & Hs & Hin).
  unfold sense_records in Hin.
  destruct (any_inflected (glosses s)) eqn:Ei; [destruct Hin|].
  apply single_gloss_loop_origin in Hin.
  destruct Hin as (gloss & Hg & Hr & Ht).
  exists e, s, gloss. repeat split; try assumption.
  apply Forall_forall. intros [g'|] Hg'; [|exact I].
  destruct (Translations.is_inflected_form_definition g') eqn:E;
    [|reflexivity].
  unfold any_inflected in Ei.
  assert (existsb
            (fun g => match g with
                      | Some gloss =>
                          Translations.is_inflected_form_definition gloss
                      | None => false
                      end) (glosses s) = true).
  { apply existsb_exists. exists (Some g'). split; assumption. }
  congruence.
Qed.

Lemma single_records_come_from_genuine_glosses_witness :
  exists e s gloss,
    In (Some e) KaikkiSamples.gato_lines /\ In s (senses e)
    /\ In (Some gloss) (glosses s)
    /\ (lit "gato", lit "es", lit "cat", lit "en")
       = (clean (word e), lit "es", clean gloss, lit "en")
    /\ Translations.is_technical_definition gloss (Some (category_names s))
       = false
    /\ Forall (fun g => match g with
                        | Some g' =>
                            Translations.is_inflected_form_definition g'
                            = false
                        | None => True
                        end)
              (glosses s).
Proof.
  apply (single_records_come_from_genuine_glosses
           KaikkiSamples.gato_lines (lit "es") (lit "en")).
  vm_compute. left. reflexivity.
Defined.

End ExtractSingleFacts.

(** ** [extract_translations] of build_translations_bidirectional.py *)

Section ExtractBidirectionalFacts.
Import Py Kaikki TranslationDb ExtractBidirectional KaikkiSamples.




Lemma bidirectional_gloss_loop_bound (w lang_from lang_to : str)
  (names : list (option str)) (gs : list (option str)) (n : Z) :
  0 <= n <= 2 ->
  len (gloss_loop w lang_from lang_to names gs n) <= 3 - n.
Proof.
  revert n. induction gs as [|[gloss|] gs IH]; intros n Hn;
    cbn [gloss_loop]; [unfold len; cbn [List.length]; lia | | apply IH, Hn].
  destruct (empty gloss); [apply IH, Hn|].
  destruct (Bidirectional.is_inflected_form_definition gloss);
    [apply IH, Hn|].
  destruct (Bidirectional.is_technical_definition gloss (Some names));
    [apply IH, Hn|].
  cbv zeta.
  destruct (negb (empty (clean gloss)) && negb (str_eqb (clean gloss) w));
    [|apply IH, Hn].
  rewrite len_cons.
  destruct (Z.geb_spec (n + 1) 3) as [Hge|Hlt].
  - unfold len; cbn [List.length]; lia.
  - specialize (IH (n + 1)). lia.
Qed.

Lemma translation_loop_bound (w lang_from lang_to : str)
  (l : list translation_item) (n : Z) :
  0 <= n <= 2 ->
  len (translation_loop w lang_from lang_to l n) <= 3 - n.
Proof.
  revert n. induction l as [|trans l IH]; intros n Hn;
    cbn [translation_loop]; [unfold len; cbn [List.length]; lia|].
  cbv zeta.
  destruct (negb match code trans with
                 | Some c => str_eqb c lang_to
                 | None => false
                 end); [apply IH, Hn|].
  destruct (empty (clean (item_word trans))
            || str_eqb (clean (item_word trans)) w); [apply IH, Hn|].
  destruct (len (clean (item_word trans)) =? 1); [apply IH, Hn|].
  rewrite len_cons.
  destruct (Z.geb_spec (n + 1) 3) as [Hge|Hlt].
  - unfold len; cbn [List.length]; lia.
  - specialize (IH (n + 1)). lia.
Qed.

(** build_translations_bidirectional.py takes at most three translations
    of an entry when it reads the English file, and at most three glosses
    of a sense otherwise. *)
Theorem bidirectional_at_most_three (lines : list (option entry))
  (lang_from lang_to : str) :
  len (extract_translations lines lang_from lang_to)
  <= 3 * (if extracting_from_english lang_from
          then len lines else total_senses lines).
Proof.
  unfold extract_translations, total_senses.
  induction lines as [|line lines IH]; cbn [flat_map].
  - destruct (extracting_from_english lang_from);
      unfold len; cbn [List.length]; lia.
  - rewrite !len_app, len_cons.
    assert (H : len (line_records lang_from lang_to line)
                <= 3 * (if extracting_from_english lang_from then 1
                        else len (match line with
                                  | Some e => senses e
                                  | None => []
                                  end))).
    { destruct line as [e|]; cbn [line_records].
      2:{ destruct (extracting_from_english lang_from);
            unfold len; cbn [List.length]; lia. }
      cbv zeta. pose proof (len_nonneg (senses e)).
      assert (H0 : len (@nil record)
                   <= 3 * (if extracting_from_english lang_from then 1
                           else len (senses e))).
      { destruct (extracting_from_english lang_from);
          unfold len in *; cbn [List.length]; lia. }
      destruct (empty (clean (word e))); [exact H0|].
      destruct (len (clean (word e)) =? 1); [exact H0|].
      destruct (extracting_from_english lang_from).
      - pose proof (translation_loop_bound (clean (word e)) lang_from
                      lang_to (translations e) 0). lia.
      - apply len_flat_map_bound. intros s _. unfold sense_records.
        pose proof (bidirectional_gloss_loop_bound (clean (word e))
                      lang_from lang_to (category_names s) (glosses s) 0).
        lia. }
    destruct (extracting_from_english lang_from); lia.
Qed.

Lemma bidirectional_gloss_loop_origin (w lang_from lang_to : str)
  (names : list (option str)) (gs : list (option str)) (n : Z)
  (r : record) :
  In r (gloss_loop w lang_from lang_to names gs n) ->
  exists gloss,
    In (Some gloss) gs
    /\ r = (w, lang_from, clean gloss, lang_to)
    /\ Bidirectional.is_inflected_form_definition gloss = false
    /\ Bidirectional.is_technical_definition gloss (Some names) = false.
Proof.
  revert n. induction gs as [|[gloss|] gs IH]; intros n;
    cbn [gloss_loop]; [intros [] | |].
  - assert (Hrest : forall m,
               In r (gloss_loop w lang_from lang_to names gs m) ->
               exists g, In (Some g) (Some gloss :: gs)
                         /\ r = (w, lang_from, clean g, lang_to)
                         /\ Bidirectional.is_inflected_form_definition g
                            = false
                         /\ Bidirectional.is_technical_definition
                              g (Some names) = false).
    { intros m Hm. destruct (IH m Hm) as (g & Hg & Hr).
      exists g. split; [right; exact Hg | exact Hr]. }
    destruct (empty gloss); [apply Hrest|].
    destruct (Bidirectional.is_inflected_form_definition gloss) eqn:Ei;
      [apply Hrest|].
    destruct (Bidirectional.is_technical_definition gloss (Some names))
      eqn:Et; [apply Hrest|].
    cbv zeta.
    destruct (negb (empty (clean gloss)) && negb (str_eqb (clean gloss) w));
      [|apply Hrest].
    intros [<-|Hin].
    + exists gloss. split; [left; reflexivity|]. repeat split; assumption.
    + destruct (n + 1 >=? 3); [destruct Hin | eapply Hrest, Hin].
  - intros Hin. destruct (IH n Hin) as (g & Hg & Hr).
    exists g. split; [right; exact Hg | exact Hr].
Qed.

(** When the source language is not English, a record of
    build_translations_bidirectional.py comes from a gloss of the file
    that is neither an inflection reference nor technical. *)
Theorem bidirectional_records_come_from_genuine_glosses
  (lines : list (option entry)) (lang_from lang_to : str) (r : record) :
  extracting_from_english lang_from = false ->
  In r (extract_translations lines lang_from lang_to) ->
  exists e s gloss,
    In (Some e) lines /\ In s (senses e) /\ In (Some gloss) (glosses s)
    /\ r = (clean (word e), lang_from, clean gloss, lang_to)
    /\ Bidirectional.is_inflected_form_definition gloss = false
    /\ Bidirectional.is_technical_definition gloss
         (Some (category_names s)) = false.
Proof.
  intros Hen. unfold extract_translations. intros Hin.
  apply in_flat_map in Hin.
  destruct Hin as ([e|] & Hline & Hin); cbn [line_records] in Hin;
    [|destruct Hin]. cbv zeta in Hin. rewrite Hen in Hin.
  destruct (empty (clean (word e))); [destruct Hin|].
  destruct (len (clean (word e)) =? 1); [destruct Hin|].
  apply in_flat_map in Hin. destruct Hin as (s & Hs & Hin).
  apply bidirectional_gloss_loop_origin in Hin.
  destruct Hin as (gloss & Hg & Hr & Hi & Ht).
  exists e, s, gloss. repeat split; assumption.
Qed.

Lemma bidirectional_records_come_from_genuine_glosses_witness :
  exists e s gloss,
    In (Some e) es_lines /\ In s (senses e) /\ In (Some gloss) (glosses s)
    /\ (lit "perro", lit "es", lit "dog", lit "en")
       = (clean (word e), lit "es", clean gloss, lit "en")
    /\ Bidirectional.is_inflected_form_definition gloss = false
    /\ Bidirectional.is_technical_definition gloss
         (Some (category_names s)) = false.
Proof.
  apply (bidirectional_records_come_from_genuine_glosses es_lines
           (lit "es") (lit "en")).
  - vm_compute. reflexivity.
  - vm_compute. left. reflexivity.
Defined.

Lemma translation_loop_origin (w lang_from lang_to : str)
  (l : list translation_item) (n : Z) (r : record) :
  In r (translation_loop w lang_from lang_to l n) ->
  exists trans,
    In trans l /\ code trans = Some lang_to
    /\ r = (w, lang_from, clean (item_word trans), lang_to)
    /\ len (clean (item_word trans)) <> 1.
Proof.
  revert n. induction l as [|trans l IH]; intros n;
    cbn [translation_loop]; [intros []|]. cbv zeta.
  assert (Hrest : forall m,
             In r (translation_loop w lang_from lang_to l m) ->
             exists t, In t (trans :: l) /\ code t = Some lang_to
                       /\ r = (w, lang_from, clean (item_word t), lang_to)
                       /\ len (clean (item_word t)) <> 1).
  { intros m Hm. destruct (IH m Hm) as (t & Ht & Hr).
    exists t. split; [right; exact Ht | exact Hr]. }
  destruct (code trans) as [c|] eqn:Ec; cbn [negb]; [|apply Hrest].
  unfold str_eqb at 1. destruct (str_eq_dec c lang_to) as [->|Hne];
    cbn [negb]; [|apply Hrest].
  destruct (empty (clean (item_word trans))
            || str_eqb (clean (item_word trans)) w); [apply Hrest|].
  destruct (len (clean (item_word trans)) =? 1) eqn:El; [apply Hrest|].
  intros [<-|Hin].
  - exists trans. split; [left; reflexivity|].
    repeat split; try assumption. apply Z.eqb_neq, El.
  - destruct (n + 1 >=? 3); [destruct Hin | eapply Hrest, Hin].
Qed.

(** When the source language is English, a record of
    build_translations_bidirectional.py comes from an item of the
    translations array whose code is the target language, and its
    translation is not a single letter. *)
Theorem bidirectional_records_come_from_translation_items
  (lines : list (option entry)) (lang_from lang_to : str) (r : record) :
  extracting_from_english lang_from = true ->
  In r (extract_translations lines lang_from lang_to) ->
  exists e trans,
    In (Some e) lines /\ In trans (translations e)
    /\ code trans = Some lang_to
    /\ r = (clean (word e), lang_from, clean (item_word trans), lang_to)
    /\ len (clean (item_word trans)) <> 1.
Proof.
  intros Hen. unfold extract_translations. intros Hin.
  apply in_flat_map in Hin.
  destruct Hin as ([e|] & Hline & Hin); cbn [line_records] in Hin;
    [|destruct Hin]. cbv zeta in Hin. rewrite Hen in Hin.
  destruct (empty (clean (word e))); [destruct Hin|].
  destruct (len (clean (word e)) =? 1); [destruct Hin|].
  apply translation_loop_origin in Hin.
  destruct Hin as (trans & Ht & Hr).
  exists e, trans. split; [exact Hline|]. split; [exact Ht | exact Hr].
Qed.

Lemma bidirectional_records_come_from_translation_items_witness :
  exists e trans,
    In (Some e) en_lines /\ In trans (translations e)
    /\ code trans = Some (lit "es")
    /\ (lit "dog", lit "en", lit "perro", lit "es")
       = (clean (word e), lit "en", clean (item_word trans), lit "es")
    /\ len (clean (item_word trans)) <> 1.
Proof.
  apply (bidirectional_records_come_from_translation_items en_lines
           (lit "en") (lit "es")).
  - vm_compute. reflexivity.
  - vm_compute. left. reflexivity.
Defined.

End ExtractBidirectionalFacts.

(** ** The table of translations *)

Section TranslationTable.
Import Py Sqlite TranslationDb Samples.

Lemma record_conflict_refl (r : record) : record_conflict r r = true.
Proof.
  unfold record_conflict. destruct (record_eq_dec r r); [reflexivity|].
  congruence.
Qed.

Lemma violates_record (r : record) (t : list record) :
  violates record_conflict r t = true <-> In r t.
Proof.
  unfold violates. rewrite existsb_exists. split.
  - intros (r' & Hin & Hc). unfold record_conflict in Hc.
    destruct (record_eq_dec r r') as [->|]; [exact Hin | discriminate].
  - intros Hin. exists r. split; [exact Hin | apply record_conflict_refl].
Qed.

Lemma insert_one_spec (r : record) (t : list record) :
  NoDup t ->
  NoDup (insert_or_ignore record_conflict r t)
  /\ (forall x, In x (insert_or_ignore record_conflict r t)
                <-> In x t \/ x = r)
  /\ exists l, insert_or_ignore record_conflict r t = t ++ l.
Proof.
  intros Hnd. unfold insert_or_ignore.
  destruct (violates record_conflict r t) eqn:E.
  - apply violates_record in E. split; [exact Hnd|]. split.
    + intros x. split; [tauto|]. intros [H| ->]; assumption.
    + exists []. rewrite app_nil_r. reflexivity.
  - assert (Hnot : ~ In r t).
    { intros Hin. apply violates_record in Hin. congruence. }
    split; [|split].
    + apply NoDup_app; [exact Hnd | repeat constructor; simpl; tauto|].
      intros x Hx [<-|[]]. exact (Hnot Hx).
    + intros x. rewrite in_app_iff. simpl. split.
      * intros [H|[H|[]]]; [left; exact H | right; symmetry; exact H].
      * intros [H|H]; [left; exact H | right; left; symmetry; exact H].
    + exists [r]. reflexivity.
Qed.

(** Inserting translations keeps the rows of the table where they are,
    adds every new record once and no record twice: the table then holds
    exactly the old rows and the records given, without a repetition. *)
Theorem insert_translations_as_a_set (table translations : list record) :
  NoDup table ->
  NoDup (insert_translations table translations)
  /\ (forall r, In r (insert_translations table translations)
                <-> In r table \/ In r translations)
  /\ exists l, insert_translations table translations = table ++ l.
Proof.
  unfold insert_translations, executemany_or_ignore.
  revert table. induction translations as [|r rs IH]; intros table Hnd;
    simpl.
  - split; [exact Hnd|]. split; [intros r; tauto|].
    exists []. rewrite app_nil_r. reflexivity.
  - destruct (insert_one_spec r table Hnd) as (Hnd1 & Hin1 & l1 & Hl1).
    destruct (IH _ Hnd1) as (Hnd' & Hin' & l & Hl).
    split; [exact Hnd'|]. split.
    + intros x. rewrite Hin', Hin1. split.
      * intros [[H|H]|H]; [left; exact H | right; left; symmetry; exact H
                           | right; right; exact H].
      * intros [H|[H|H]]; [left; left; exact H | left; right; symmetry; exact H
                           | right; exact H].
    + exists (l1 ++ l). rewrite Hl, Hl1, app_assoc. reflexivity.
Qed.

Lemma insert_translations_as_a_set_witness :
  NoDup (insert_translations [] [perro_dog; perro_dog])
  /\ (forall r, In r (insert_translations [] [perro_dog; perro_dog])
                <-> In r [] \/ In r [perro_dog; perro_dog])
  /\ exists l, insert_translations [] [perro_dog; perro_dog] = [] ++ l.
Proof.
  apply (insert_translations_as_a_set [] [perro_dog; perro_dog]).
  constructor.
Defined.

(** Running the end of [main] again on the same two lists, over the
    database that the first run left, changes nothing. *)
Theorem store_pair_again (table t1 t2 : list record) :
  store_pair (store_pair table t1 t2) t1 t2 = store_pair table t1 t2.
Proof.
  unfold store_pair. destruct (Bidirectional.augment t1 t2) as [a b].
  unfold insert_translations.
  set (T := executemany_or_ignore record_conflict b
              (executemany_or_ignore record_conflict a table)).
  assert (Ha : executemany_or_ignore record_conflict a T = T).
  { apply load_of_present_rows. intros r Hr. subst T.
    apply violates_after_load.
    apply loaded_rows_violate; [apply record_conflict_refl | exact Hr]. }
  rewrite Ha. apply load_of_present_rows. intros r Hr. subst T.
  apply loaded_rows_violate; [apply record_conflict_refl | exact Hr].
Qed.

End TranslationTable.

(** ** Why a lemma is linked to a concept *)

Section Membership.
Import Py Concepts Graph Plan Numbering Trace Samples.

Lemma hub_add_traced (pos_cache : list ((str * str) * str))
  (T : str * str * str -> Prop) (h : hub) (t : str * str * str) :
  T t -> traced pos_cache T h -> traced pos_cache T (hub_add pos_cache h t).
Proof.
  intros Ht Htr. rewrite hub_add_eq.
  destruct (dict_mem key_eq_dec (source_key_of pos_cache t)
                     (bucket_at h (hub_key_of pos_cache t))); [exact Htr|].
  intros hk tr k n Hin Hk. apply In_dict_set in Hin.
  destruct Hin as [Hin|[-> ->]]; [exact (Htr _ _ _ _ Hin Hk)|].
  apply In_dict_set in Hk. destruct Hk as [Hk|[-> _]].
  - unfold bucket_at in Hk.
    destruct (dict_get pair_eq_dec (hub_key_of pos_cache t) h) as [d|] eqn:E;
      [|destruct Hk].
    apply dict_get_In in E. exact (Htr _ _ _ _ E Hk).
  - exists t. repeat split. exact Ht.
Qed.

Lemma fold_hub_add_traced (pos_cache : list ((str * str) * str))
  (T : str * str * str -> Prop) (ts : list (str * str * str)) (h : hub) :
  (forall t, In t ts -> T t) ->
  traced pos_cache T h ->
  traced pos_cache T (fold_left (hub_add pos_cache) ts h).
Proof.
  revert h. induction ts as [|t ts IH]; intros h HT Htr; simpl; [exact Htr|].
  apply IH; [intros t' Ht'; apply HT; right; exact Ht'|].
  apply hub_add_traced; [apply HT; left; reflexivity | exact Htr].
Qed.

Lemma build_hub_traced (pos_cache : list ((str * str) * str))
  (translation_dbs : list (option (list (str * str * str * str)))) :
  traced pos_cache (fun t => In t (all_en_translations translation_dbs))
         (build_hub pos_cache translation_dbs).
Proof.
  rewrite build_hub_flat. apply fold_hub_add_traced.
  - intros t Ht. exact Ht.
  - intros hk tr k n [].
Qed.

(** A sense added by the loop over the hub belongs to a bucket of the hub,
    and the concept of the sense is the one entered for that bucket. *)
Lemma senses_linked (h : hub) (b : builder) :
  wf b ->
  NoDup (List.map fst h) ->
  (forall k, In k (List.map fst h) -> ~ In k (List.map fst (concepts b))) ->
  forall s,
    In s (senses (fold_left add_concept h b)) ->
    In s (senses b)
    \/ exists bucket x,
         In bucket h
         /\ In (fst bucket, sense_concept s)
               (concepts (fold_left add_concept h b))
         /\ In x (full_plan bucket)
         /\ realises (lemmas (fold_left add_concept h b))
                     (sense_concept s) x s.
Proof.
  revert b. induction h as [|bucket h IH]; intros b Hwf Hnd Hfresh s Hs;
    [left; exact Hs|].
  change (fold_left add_concept (bucket :: h) b)
    with (fold_left add_concept h (add_concept b bucket)) in *.
  destruct (add_concept_spec b bucket Hwf)
    as (Hwf1 & _ & Hn1 & Hc1 & new & Hs1 & Hr1).
  inversion Hnd as [|? ? Hnotin Hnd']; subst.
  assert (Habsent : dict_get pair_eq_dec (fst bucket) (concepts b) = None).
  { apply dict_get_None. apply Hfresh. left. reflexivity. }
  rewrite (dict_set_absent pair_eq_dec) in Hc1 by exact Habsent.
  assert (Hfresh1 : forall k, In k (List.map fst h) ->
                              ~ In k (List.map fst
                                        (concepts (add_concept b bucket)))).
  { intros k Hk. rewrite Hc1, map_app. simpl. intros Hin.
    apply in_app_or in Hin. destruct Hin as [Hin|[<-|[]]].
    - apply (Hfresh k); [right; exact Hk | exact Hin].
    - exact (Hnotin Hk). }
  destruct (concepts_fold h _ Hwf1 Hnd' Hfresh1) as (Hcf & _).
  assert (Hold1 : True) by exact I.
  destruct (senses_fold h _ Hwf1) as (new' & Hnew' & _).
  assert (Hext : extends (add_concept b bucket)
                         (fold_left add_concept h (add_concept b bucket))).
  { clear -Hwf1. revert Hwf1. generalize (add_concept b bucket).
    induction h as [|bk h IHh]; intros b1 Hwf1; simpl;
      [apply extends_refl|].
    destruct (add_concept_spec b1 bk Hwf1) as (Hwf2 & Hext2 & _).
    eapply extends_trans; [exact Hext2 | apply IHh, Hwf2]. }
  destruct (IH _ Hwf1 Hnd' Hfresh1 s Hs) as [Hin|(bk & x & Hb & Hc & Hx & Hr)].
  - rewrite Hs1 in Hin. apply in_app_or in Hin.
    destruct Hin as [Hin|Hin]; [left; exact Hin|]. right.
    destruct (Forall2_In_r _ _ _ _ Hr1 Hin) as (x & Hx & Hreal).
    assert (Hcid : sense_concept s = next_concept_id b) by apply Hreal.
    exists bucket, x. split; [left; reflexivity|]. split; [|split].
    + rewrite Hcf, Hc1, Hcid. apply in_or_app. left.
      apply in_or_app. right. left. reflexivity.
    + exact Hx.
    + rewrite Hcid. eapply realises_extends; eassumption.
  - right. exists bk, x. split; [right; exact Hb|].
    split; [exact Hc|]. split; assumption.
Qed.

(** A sense of a build links a lemma to a concept for a reason: either the
    lemma is the English lemma that names the concept, or a translation
    database gives, for that lemma in its language, a gloss whose
    canonical form names the concept; the part of speech is the one the
    POS cache has for the lemma. *)
Theorem senses_follow_translations
  (langpack : str -> option (list langpack_row))
  (translation_dbs : list (option (list (str * str * str * str))))
  (s : Z * Z * Z) :
  In s (senses (build langpack translation_dbs)) ->
  exists lang lemma pos gloss,
    In ((lang, lemma, pos), sense_lemma_id s)
       (lemmas (build langpack translation_dbs))
    /\ In ((gloss, pos), sense_concept s)
          (concepts (build langpack translation_dbs))
    /\ ((lang = en /\ lemma = gloss)
        \/ exists translation,
             In (lemma, lang, translation)
                (all_en_translations translation_dbs)
             /\ Canon._extract_english_lemma translation = gloss
             /\ source_pos_of (cache_of langpack) (lemma, lang, translation)
                = pos).
Proof.
  unfold build, build_concepts_from_translations, cache_of.
  destruct (extract_spec langpack init init_wf) as (Hwf & Hs & Hc & _).
  set (b0 := extract_forms_and_lemmas langpack init) in *.
  set (pc := build_pos_cache (lemmas b0)).
  set (h := build_hub pc translation_dbs).
  pose proof (build_hub_keys pc translation_dbs) as Hnd. fold h in Hnd.
  pose proof (build_hub_traced pc translation_dbs) as Htr. fold h in Htr.
  intros Hin.
  destruct (senses_linked h b0 Hwf Hnd) with (s := s)
    as [Hold|(bucket & x & Hb & Hcon & Hx & Hreal)].
  - intros k _. rewrite Hc. simpl. tauto.
  - exact Hin.
  - rewrite Hs in Hold. destruct Hold.
  - destruct bucket as [[gloss pos] translations].
    destruct Hreal as (_ & _ & Hkey). apply key_of_id_In in Hkey.
    unfold full_plan in Hx. apply in_app_or in Hx.
    destruct Hx as [Hx|[<-|[]]].
    + apply bucket_plan_origin in Hx. apply in_map_iff in Hx.
      destruct Hx as ([k n] & Hk & Hx). simpl in Hk. subst k.
      destruct (Htr _ _ _ _ Hb Hx) as ([[lemma_from lang_from] translation]
                                       & Ht & Hhk & Hsk).
      unfold hub_key_of in Hhk. unfold source_key_of in Hsk.
      injection Hhk as Hg Hp. rewrite Hsk in Hkey.
      exists lang_from, lemma_from, pos, gloss.
      split; [rewrite Hp; exact Hkey|]. split; [exact Hcon|].
      right. exists translation. split; [exact Ht|].
      split; symmetry; assumption.
    + simpl in Hkey. exists en, gloss, pos, gloss.
      split; [exact Hkey|]. split; [exact Hcon|]. left. split; reflexivity.
Qed.

Lemma senses_follow_translations_witness :
  exists lang lemma pos gloss,
    In ((lang, lemma, pos), sense_lemma_id (4, 2, 1)) (lemmas sample_builder)
    /\ In ((gloss, pos), sense_concept (4, 2, 1)) (concepts sample_builder)
    /\ ((lang = en /\ lemma = gloss)
        \/ exists translation,
             In (lemma, lang, translation) (all_en_translations es_en_db)
             /\ Canon._extract_english_lemma translation = gloss
             /\ source_pos_of (cache_of langpack_es)
                              (lemma, lang, translation) = pos).
Proof.
  apply (senses_follow_translations langpack_es es_en_db (4, 2, 1)).
  vm_compute. right. right. right. left. reflexivity.
Defined.

End Membership.

Section ConceptCoverage.
Import Py Concepts Graph Plan Numbering Trace Samples.

Lemma number_has_key {K} (start : Z) (keys : list K) (k : K) :
  In k keys -> exists i, In (k, i) (number start keys).
Proof.
  revert start. induction keys as [|k' keys IH]; intros start; simpl;
    [tauto|].
  intros [->|Hin].
  - exists start. left. reflexivity.
  - destruct (IH (start + 1) Hin) as (i & Hi). exists i. right. exact Hi.
Qed.

Lemma entered_has_bucket (pos_cache : list ((str * str) * str)) (h : hub)
  (t : str * str * str) :
  entered pos_cache h t -> In (hub_key_of pos_cache t) (List.map fst h).
Proof.
  unfold entered, bucket_at, dict_mem.
  destruct (dict_get pair_eq_dec (hub_key_of pos_cache t) h) as [d|] eqn:E.
  - intros _. apply dict_get_In in E. apply (in_map fst) in E. exact E.
  - simpl. discriminate.
Qed.

(** Every translation to English that a database gives for a word of
    another language has its concept: the canonical form of the gloss,
    with the part of speech that the POS cache has for the word, names a
    concept of the build. *)
Theorem every_translation_has_a_concept
  (langpack : str -> option (list langpack_row))
  (translation_dbs : list (option (list (str * str * str * str))))
  (lemma_from lang_from translation : str) :
  In (lemma_from, lang_from, translation)
     (all_en_translations translation_dbs) ->
  exists concept_id,
    In ((Canon._extract_english_lemma translation,
         source_pos_of (cache_of langpack)
                       (lemma_from, lang_from, translation)),
        concept_id)
       (concepts (build langpack translation_dbs)).
Proof.
  intros Hin.
  destruct (concepts_numbered_by_bucket_aux langpack translation_dbs)
    as (Hc & _).
  rewrite Hc. apply number_has_key. unfold hub_of.
  rewrite build_hub_flat.
  apply (entered_has_bucket _ _ (lemma_from, lang_from, translation)).
  apply fold_enters, Hin.
Qed.

Lemma every_translation_has_a_concept_witness :
  exists concept_id,
    In ((Canon._extract_english_lemma (lit "dog, hound"),
         source_pos_of (cache_of langpack_es)
                       (lit "can", lit "es", lit "dog, hound")),
        concept_id)
       (concepts sample_builder).
Proof.
  apply (every_translation_has_a_concept langpack_es es_en_db).
  vm_compute. right. left. reflexivity.
Defined.

End ConceptCoverage.

(** ** build_lemmas.py: the combined mappings *)

Section LemmaPackFacts.
Import Py LemmaPack.

Lemma add_all_get (w : str) (l : list mapping)
  (d : list (str * (str * str))) :
  dict_get str_eq_dec w (add_all l d)
  = match last_of w l with
    | Some m => Some m
    | None => dict_get str_eq_dec w d
    end.
Proof.
  unfold add_all. revert d.
  induction l as [|[[word lemma] pos] l IH]; intros d;
    cbn [fold_left last_of]; [reflexivity|].
  rewrite IH. destruct (last_of w l); [reflexivity|].
  rewrite dict_get_set. destruct (str_eq_dec w word); reflexivity.
Qed.

Lemma add_all_keys (l : list mapping) (d : list (str * (str * str))) :
  NoDup (List.map fst d) -> NoDup (List.map fst (add_all l d)).
Proof.
  unfold add_all. revert d.
  induction l as [|[[word lemma] pos] l IH]; intros d H; simpl; [exact H|].
  apply IH, NoDup_dict_set, H.
Qed.

Lemma combine_words (spacy kaikki : list mapping) :
  List.map mapping_word (combine spacy kaikki)
  = List.map fst (add_all kaikki (add_all spacy [])).
Proof.
  unfold combine. rewrite map_map. apply map_ext.
  intros [w [l p]]. reflexivity.
Qed.

Lemma combine_In (spacy kaikki : list mapping) (w lemma pos : str) :
  In (w, lemma, pos) (combine spacy kaikki)
  <-> dict_get str_eq_dec w (add_all kaikki (add_all spacy []))
      = Some (lemma, pos).
Proof.
  assert (Hnd : NoDup (List.map fst (add_all kaikki (add_all spacy []))))
    by (apply add_all_keys, add_all_keys; constructor).
  unfold combine. split.
  - intros Hin. apply in_map_iff in Hin.
    destruct Hin as ([w' [l' p']] & [= -> -> ->] & Hin).
    apply In_dict_get; assumption.
  - intros Hget. apply dict_get_In in Hget.
    apply in_map_iff. exists (w, (lemma, pos)). split; [reflexivity|exact Hget].
Qed.

(** The combined list has one mapping per word: the last one that the
    Kaikki list gives for the word, and for a word that the Kaikki list
    does not have, the last one of the SpaCy list. *)
Theorem kaikki_mappings_take_precedence (spacy kaikki : list mapping)
  (w lemma pos : str) :
  NoDup (List.map mapping_word (combine spacy kaikki))
  /\ (In (w, lemma, pos) (combine spacy kaikki)
      <-> match last_of w kaikki with
          | Some m => m = (lemma, pos)
          | None => last_of w spacy = Some (lemma, pos)
          end).
Proof.
  split.
  - rewrite combine_words. apply add_all_keys, add_all_keys. constructor.
  - rewrite combine_In, !add_all_get.
    destruct (last_of w kaikki) as [m|].
    + split; [intros [= ->]; reflexivity | intros ->; reflexivity].
    + destruct (last_of w spacy); simpl; tauto.
Qed.

Lemma kaikki_mappings_take_precedence_witness :
  In (lit "fui", lit "ser", lit "VERB")
     (combine [(lit "fui", lit "ir", lit "AUX")]
              [(lit "fui", lit "ir", lit "VERB");
               (lit "fui", lit "ser", lit "VERB")]).
Proof.
  apply (kaikki_mappings_take_precedence
           [(lit "fui", lit "ir", lit "AUX")]
           [(lit "fui", lit "ir", lit "VERB");
            (lit "fui", lit "ser", lit "VERB")]).
  vm_compute. reflexivity.
Defined.

End LemmaPackFacts.
